(** * Coupon issuance backend: sequence assignment and issuance workflow

    A shallow embedding of [src/main.py] and [src/schemas.py]:
    [_get_next_sequence], the code formatting [f"{COUPON_PREFIX}{seq:06d}"],
    the [Coupon] schema and the request handler [generate_coupon].

    The document store (pymongo), the [database] module and Pillow are
    collaborators of the program.  Their observable behaviour during one
    request is described by an [Env] record, and the state they hold by a
    [World] record. *)

From Stdlib Require Import ZArith NArith Lia List Permutation Sorted.
From Stdlib Require Import Strings.String Strings.Ascii Strings.Byte.
From Stdlib Require Import Numbers.DecimalString Numbers.DecimalN Numbers.DecimalFacts.
From stdpp Require Import base option list gmap strings fin_maps list_numbers sorting.

Open Scope Z_scope.

(** ** Python values and exceptions *)

(** The values a counter document's field holds once decoded by the driver:
    BSON null, booleans and integers.  Python's [int] is unbounded. *)
Inductive PyVal : Type :=
  | PNone
  | PBool (b : bool)
  | PInt (z : Z).

(** A document is a Python [dict] with string keys.  The key ["_id"] is the
    key of the collection map below, the other fields are in the dict. *)
Abbreviation Doc := (gmap string PyVal).

(** The two classes of exception [generate_coupon] tells apart:
    [fastapi.HTTPException] and every other [Exception], which carries the
    text that [str(e)] gives. *)
Inductive Exn : Type :=
  | HTTPException (status_code : Z) (detail : string)
  | OtherException (msg : string).

Inductive result (A : Type) : Type :=
  | Ok (a : A)
  | Raise (e : Exn).
Arguments Ok {A} a.
Arguments Raise {A} e.

(** Truth value of a Python object ([bool(x)]). *)
Definition py_truthy (v : PyVal) : bool :=
  match v with
  | PNone => false
  | PBool b => b
  | PInt z => negb (z =? 0)
  end.

(** [x or y]: [x] when it is truthy, [y] otherwise. *)
Definition py_or (x y : PyVal) : PyVal :=
  if py_truthy x then x else y.

(** [dict.get(key)]: the field, or [None] when the key is absent. *)
Definition dict_get (d : Doc) (key : string) : PyVal :=
  default PNone (d !! key).

(** [int(x)]. *)
Definition py_int (v : PyVal) : result Z :=
  match v with
  | PInt z => Ok z
  | PBool b => Ok (if b then 1 else 0)
  | PNone =>
      Raise (OtherException
        "int() argument must be a string, a bytes-like object or a real number, not 'NoneType'")
  end.

(** ** Records of the coupon collection ([schemas.Coupon]) *)

Record Coupon : Type := mkCoupon {
  code : string;
  channel : option string;
  redeemed : bool
}.

(** The constructor of the pydantic model: [code] is required, [channel]
    defaults to ["whatsapp"] and [redeemed] to [False]. *)
Definition Coupon_new (code : string) (channel : option (option string))
    (redeemed : option bool) : Coupon :=
  {| code := code;
     channel := default (Some "whatsapp"%string) channel;
     redeemed := default false redeemed |}.

(** ** The world: store, handle and record of calls *)

(** What the program asked of its collaborators, oldest first. *)
Inductive Event : Type :=
  | EvSequence (seq_name : string) (n : Z)   (* _get_next_sequence returned n *)
  | EvInsert (collection : string) (c : Coupon) (* create_document wrote c *)
  | EvRender (code : string).                (* _build_coupon_image was called *)

Record Database : Type := mkDatabase {
  counters : gmap string Doc;            (* db["counters"], keyed by _id *)
  collections : gmap string (list Coupon) (* the other collections, in insertion order *)
}.

Record World : Type := mkWorld {
  db_configured : bool;   (* false when [database.db] is None *)
  store : Database;
  log : list Event
}.

(** [db is None]: the handle [database.db] on the store is missing. *)
Definition db_is_None (w : World) : bool := negb (db_configured w).

(** The behaviour of the collaborators during one request. *)
Record Env : Type := mkEnv {
  counter_fault : option string;  (* the driver raises in find_one_and_update *)
  insert_fault : option Exn;      (* create_document raises *)
  pil : option (string -> list byte + string)
    (* None: Pillow cannot be imported; Some f: drawing and encoding the
       image for a code gives the PNG bytes, or raises with a message *)
}.

(** ** A state and exception monad *)

Definition M (A : Type) : Type := World -> result A * World.

Definition ret {A} (a : A) : M A := fun w => (Ok a, w).

Definition raise {A} (e : Exn) : M A := fun w => (Raise e, w).

Definition bind {A B} (m : M A) (k : A -> M B) : M B :=
  fun w =>
    match m w with
    | (Ok a, w') => k a w'
    | (Raise e, w') => (Raise e, w')
    end.

Definition lift {A} (r : result A) : M A := fun w => (r, w).

Definition emit (ev : Event) : M unit :=
  fun w => (Ok tt, {| db_configured := db_configured w; store := store w;
                      log := log w ++ [ev] |}).

(** [try: m except HTTPException as e: raise e except Exception as e: h e]. *)
Definition try_except {A} (m : M A) (h : string -> M A) : M A :=
  fun w =>
    match m w with
    | (Ok a, w') => (Ok a, w')
    | (Raise (HTTPException s d), w') => (Raise (HTTPException s d), w')
    | (Raise (OtherException msg), w') => h msg w'
    end.

Notation "'let!' x ':=' m 'in' k" := (bind m (fun x => k))
  (at level 10, x name, m at level 100, k at level 200).
Notation "'do!' m 'in' k" := (bind m (fun _ => k))
  (at level 10, m at level 100, k at level 200).

(** ** The counter collection *)

(** The update [{"$inc": {"value": 1}}] applied to a document: an absent
    field is set to 1, an integer field is incremented, and the store
    rejects the update of a field that is not a number. *)
Definition inc_value (d : Doc) : option Doc :=
  match d !! "value"%string with
  | None => Some (<["value"%string := PInt 1]> d)
  | Some (PInt v) => Some (<["value"%string := PInt (v + 1)]> d)
  | Some _ => None
  end.

(** [counters.find_one_and_update({"_id": seq_name}, {"$inc": {"value": 1}},
    upsert=True, return_document=ReturnDocument.AFTER)]: one atomic
    operation of the store, which returns the document after the update.
    With [upsert] a missing document is created from the query. *)
Definition find_one_and_update (env : Env) (seq_name : string) : M Doc :=
  fun w =>
    match counter_fault env with
    | Some msg => (Raise (OtherException msg), w)
    | None =>
        match inc_value (default ∅ (counters (store w) !! seq_name)) with
        | None =>
            (Raise (OtherException "Cannot apply $inc to a value of non-numeric type"), w)
        | Some doc =>
            (Ok doc,
             {| db_configured := db_configured w;
                store := {| counters := <[seq_name := doc]> (counters (store w));
                            collections := collections (store w) |};
                log := log w |})
        end
    end.

(** Lines 84-85: [value = doc.get("value") or 1; return int(value)]. *)
Definition sequence_of_doc (doc : Doc) : result Z :=
  py_int (py_or (dict_get doc "value") (PInt 1)).

Definition _get_next_sequence (env : Env) (seq_name : string) : M Z :=
  fun w =>
    if db_is_None w then
      raise (HTTPException 500 "Database not configured") w
    else
      (let! doc := find_one_and_update env seq_name in
       let! n := lift (sequence_of_doc doc) in
       do! emit (EvSequence seq_name n) in
       ret n) w.

(** ** Formatting the code *)

Definition COUPON_PREFIX : string := "WBAU10DIC-".

(** Decimal digits of a natural number, as [str] prints them. *)
Definition decimal (n : N) : string :=
  NilEmpty.string_of_uint (N.to_uint n).

Fixpoint zeros (k : nat) : string :=
  match k with
  | O => EmptyString
  | S k' => String "0" (zeros k')
  end.

(** The format specification [0{width}d] on an [int]: the sign, then zeros,
    then the digits, so that the whole is at least [width] characters. *)
Definition format_0d (width : nat) (n : Z) : string :=
  let sign := if n <? 0 then "-"%string else EmptyString in
  let digits := decimal (Z.abs_N n) in
  sign +:+ zeros (width - String.length sign - String.length digits) +:+ digits.

(** [f"{seq:06d}"]. *)
Definition format_06d (seq : Z) : string := format_0d 6 seq.

(** The spec's [zero-pad(n, 6)]: the digits of [n] with zeros before them
    up to the width. *)
Definition zero_pad (n : N) (width : nat) : string :=
  zeros (width - String.length (decimal n)) +:+ decimal n.

(** ** Persistence and rendering *)

(** Modelled from the spec: [create_document] of the [database] module,
    which is not among the sources.  It inserts the record into the named
    collection of the document store, or fails and writes nothing. *)
Definition create_document (env : Env) (collection_name : string)
    (data : Coupon) : M unit :=
  fun w =>
    match insert_fault env with
    | Some e => (Raise e, w)
    | None =>
        (Ok tt,
         {| db_configured := db_configured w;
            store :=
              {| counters := counters (store w);
                 collections :=
                   <[collection_name :=
                       default [] (collections (store w) !! collection_name) ++ [data]]>
                     (collections (store w)) |};
            log := log w ++ [EvInsert collection_name data] |})
    end.

(** [_build_coupon_image]: the lazy import of Pillow, then the drawing and
    the PNG encoding, which are Pillow's. *)
Definition _build_coupon_image (env : Env) (code : string) : M (list byte) :=
  do! emit (EvRender code) in
  match pil env with
  | None =>
      raise (HTTPException 503 "Image generator unavailable. Please try again later.")
  | Some draw =>
      match draw code with
      | inl png => ret png
      | inr msg => raise (OtherException msg)
      end
  end.

(** ** The request handler *)

Inductive Response : Type :=
  | StreamingResponse (content : list byte) (media_type : string)
      (headers : list (string * string))
  | JSONResponse (status_code : Z) (content : list (string * string)).

Definition generate_coupon (env : Env) : M Response :=
  try_except
    (let! seq := _get_next_sequence env "coupon" in
     let code := COUPON_PREFIX +:+ format_06d seq in
     let doc := Coupon_new code None None in
     do! create_document env "coupon" doc in
     let! png_bytes := _build_coupon_image env code in
     let filename := "miabaucoupon_" +:+ code +:+ ".png" in
     ret (StreamingResponse png_bytes "image/png"
            [("Content-Disposition"%string, "attachment; filename=" +:+ filename);
             ("X-Coupon-Code"%string, code)]))
    (fun msg => ret (JSONResponse 500 [("error"%string, msg)])).

(** ** Reading the counter, the answers and the log *)

(** The integer in a document's ["value"] field; 0 when there is none. *)
Definition doc_value (d : Doc) : Z :=
  match d !! "value"%string with
  | Some (PInt v) => v
  | _ => 0
  end.

(** The stored document of a sequence name, empty when there is none. *)
Definition counter_doc (seq_name : string) (w : World) : Doc :=
  default ∅ (counters (store w) !! seq_name).

Definition counter_value (seq_name : string) (w : World) : Z :=
  doc_value (counter_doc seq_name w).

(** The data model's counter: no ["value"] yet, or a non-negative integer. *)
Definition counter_wf (seq_name : string) (w : World) : Prop :=
  counter_doc seq_name w !! "value"%string = None ∨
  ∃ v, counter_doc seq_name w !! "value"%string = Some (PInt v) ∧ 0 ≤ v.

(** The world after a successful call that stored [doc] and returned [n]. *)
Definition after_next (seq_name : string) (doc : Doc) (n : Z) (w : World) : World :=
  {| db_configured := db_configured w;
     store := {| counters := <[seq_name := doc]> (counters (store w));
                 collections := collections (store w) |};
     log := log w ++ [EvSequence seq_name n] |}.

Definition next_value (v : Z) : Z := if v + 1 =? 0 then 1 else v + 1.

Definition coupon_code (seq : Z) : string := COUPON_PREFIX +:+ format_06d seq.

Definition coupon_headers (code : string) : list (string * string) :=
  [("Content-Disposition"%string,
    "attachment; filename=" +:+ ("miabaucoupon_" +:+ code +:+ ".png"));
   ("X-Coupon-Code"%string, code)].

(** The two [except] clauses of the handler, applied to an exception. *)
Definition handled (e : Exn) : result Response :=
  match e with
  | HTTPException s d => Raise (HTTPException s d)
  | OtherException msg => Ok (JSONResponse 500 [("error"%string, msg)])
  end.

(** The world after the record [c] was written and the renderer called. *)
Definition after_insert_render (c : Coupon) (w : World) : World :=
  {| db_configured := db_configured w;
     store :=
       {| counters := counters (store w);
          collections :=
            <["coupon"%string :=
                default [] (collections (store w) !! "coupon"%string) ++ [c]]>
              (collections (store w)) |};
     log := log w ++ [EvInsert "coupon" c; EvRender (code c)] |}.

Definition render_outcome (env : Env) (code : string) : result Response :=
  match pil env with
  | None =>
      Raise (HTTPException 503 "Image generator unavailable. Please try again later.")
  | Some draw =>
      match draw code with
      | inl png => Ok (StreamingResponse png "image/png" (coupon_headers code))
      | inr msg => Ok (JSONResponse 500 [("error"%string, msg)])
      end
  end.

Definition is_streaming (r : result Response) : bool :=
  match r with
  | Ok (StreamingResponse _ _ _) => true
  | _ => false
  end.

(** A header of an answer, by name. *)
Fixpoint header_get (name : string) (hs : list (string * string)) : option string :=
  match hs with
  | [] => None
  | (k, v) :: rest => if String.eqb k name then Some v else header_get name rest
  end.

(** The code a streamed answer exposes in [X-Coupon-Code]. *)
Definition response_code (r : result Response) : option string :=
  match r with
  | Ok (StreamingResponse _ _ hs) => header_get "X-Coupon-Code" hs
  | _ => None
  end.

(** Reading a string of decimal digits back ([int(s)] on digits). *)
Definition parse_decimal (s : string) : option N :=
  N.of_uint <$> NilEmpty.uint_of_string s.

(** What the events of an issuance after the sequencer are about. *)
Definition event_has_code (c : string) (ev : Event) : Prop :=
  match ev with
  | EvSequence _ _ => False
  | EvInsert col r => col = "coupon"%string ∧ code r = c
  | EvRender c' => c' = c
  end.

(** The events a request added to the log. *)
Definition new_events (w w' : World) : list Event :=
  drop (length (log w)) (log w').

(** ** Runs of operations *)

(** The operations of the program that touch the store. *)
Inductive Op : Type :=
  | OpNext (seq_name : string)   (* a call of _get_next_sequence *)
  | OpIssue.                     (* a request POST /coupon *)

Definition run_op (step : Env * Op) (w : World) : World :=
  match step with
  | (env, OpNext seq_name) => snd (_get_next_sequence env seq_name w)
  | (env, OpIssue) => snd (generate_coupon env w)
  end.

(** The operations one after the other, first to last. *)
Definition run_ops (steps : list (Env * Op)) (w : World) : World :=
  foldl (λ w step, run_op step w) w steps.

Definition returned_by (seq_name : string) (ev : Event) : option Z :=
  match ev with
  | EvSequence s n => if decide (s = seq_name) then Some n else None
  | _ => None
  end.

(** The values the sequencer returned for a name, oldest first. *)
Definition returned (seq_name : string) (w : World) : list Z :=
  omap (returned_by seq_name) (log w).

(** The counter agrees with the values returned so far: they increase
    strictly and none is above the stored value. *)
Definition counter_inv (seq_name : string) (w : World) : Prop :=
  counter_wf seq_name w ∧
  StronglySorted Z.lt (returned seq_name w) ∧
  Forall (λ n, n ≤ counter_value seq_name w) (returned seq_name w).

(** ** Concurrent calls of the sequencer *)

(** A call of [_get_next_sequence] in progress.  The call asks the store
    once, with [find_one_and_update], which the store performs atomically;
    what comes before and after is local to the call. *)
Inductive Call : Type :=
  | CallStart                 (* the store has not been asked yet *)
  | CallFetched (doc : Doc)   (* find_one_and_update has answered *)
  | CallDone (r : result Z).  (* the call has returned or raised *)

(** One step of a call: up to and including the store's operation, then
    lines 84-85. *)
Definition step_call (env : Env) (seq_name : string) (c : Call) (w : World)
    : Call * World :=
  match c with
  | CallStart =>
      if db_is_None w then
        (CallDone (Raise (HTTPException 500 "Database not configured")), w)
      else
        match find_one_and_update env seq_name w with
        | (Ok doc, w') => (CallFetched doc, w')
        | (Raise e, w') => (CallDone (Raise e), w')
        end
  | CallFetched doc =>
      match (let! n := lift (sequence_of_doc doc) in
             do! emit (EvSequence seq_name n) in
             ret n) w with
      | (r, w') => (CallDone r, w')
      end
  | CallDone r => (CallDone r, w)
  end.

(** The calls in flight, each with the behaviour of the store it meets, and
    the world they share. *)
Record Pool : Type := mkPool {
  pool_world : World;
  pool_calls : list (Env * Call)
}.

(** The scheduler lets call [i] take one step. *)
Definition step_pool (seq_name : string) (i : nat) (p : Pool) : Pool :=
  match pool_calls p !! i with
  | None => p
  | Some (env, c) =>
      let '(c', w') := step_call env seq_name c (pool_world p) in
      {| pool_world := w'; pool_calls := <[i := (env, c')]> (pool_calls p) |}
  end.

(** An interleaving: the indices of the calls, in the order they step. *)
Definition run_schedule (seq_name : string) (sched : list nat) (p : Pool) : Pool :=
  foldl (λ p i, step_pool seq_name i p) p sched.

Definition init_pool (envs : list Env) (w : World) : Pool :=
  {| pool_world := w; pool_calls := (λ env, (env, CallStart)) <$> envs |}.

Definition call_finished (c : Call) : bool :=
  match c with
  | CallDone _ => true
  | _ => false
  end.

Definition all_finished (p : Pool) : Prop :=
  Forall (λ ec, call_finished ec.2 = true) (pool_calls p).

(** The value a call holds once the store has answered it. *)
Definition held (ec : Env * Call) : option Z :=
  match ec.2 with
  | CallStart => None
  | CallFetched doc => Some (doc_value doc)
  | CallDone (Ok v) => Some v
  | CallDone (Raise _) => None
  end.

(** A call that met no fault: the document it fetched has a positive
    integer ["value"], and it has not raised. *)
Definition call_ok (ec : Env * Call) : Prop :=
  counter_fault ec.1 = None ∧
  match ec.2 with
  | CallFetched doc => ∃ v, doc !! "value"%string = Some (PInt v) ∧ 1 ≤ v
  | CallDone (Raise _) => False
  | _ => True
  end.

(** The values held are 1, ..., k in some order, and the counter is at k. *)
Definition pool_inv (seq_name : string) (p : Pool) : Prop :=
  db_configured (pool_world p) = true ∧
  Forall call_ok (pool_calls p) ∧
  omap held (pool_calls p) ≡ₚ
    seqZ 1 (Z.of_nat (length (omap held (pool_calls p)))) ∧
  counter_value seq_name (pool_world p) =
    Z.of_nat (length (omap held (pool_calls p))) ∧
  (counter_doc seq_name (pool_world p) !! "value"%string = None ∨
   ∃ v, counter_doc seq_name (pool_world p) !! "value"%string = Some (PInt v)).

Definition phase (c : Call) : nat :=
  match c with
  | CallStart => 0
  | CallFetched _ => 1
  | CallDone _ => 2
  end.

(** ** Sample worlds and environments *)

Definition empty_db : Database := {| counters := ∅; collections := ∅ |}.
Definition fresh_world : World :=
  {| db_configured := true; store := empty_db; log := [] |}.
Definition unconfigured_world : World :=
  {| db_configured := false; store := empty_db; log := [] |}.

(** A renderer that answers with the bytes of a fixed header. *)
Definition stub_png (code : string) : list byte + string :=
  inl [x89; x50; x4e; x47].
Definition ok_env : Env :=
  {| counter_fault := None; insert_fault := None; pil := Some stub_png |}.

(** A configured world whose ["coupon"] counter document holds [v]. *)
Definition world_with_counter (v : Z) : World :=
  {| db_configured := true;
     store := {| counters := {[ "coupon"%string := {[ "value"%string := PInt v ]} ]};
                 collections := ∅ |};
     log := [] |}.

(** Environments in which a step of the issuance fails. *)
Definition env_no_pillow : Env :=
  {| counter_fault := None; insert_fault := None; pil := None |}.
Definition env_insert_fails : Env :=
  {| counter_fault := None;
     insert_fault := Some (OtherException "write failed");
     pil := Some stub_png |}.

(** ** The diagnostic endpoint *)

(** A Python [str] is held as its UTF-8 encoding.  A byte [10xxxxxx]
    continues the code point that the bytes before it started. *)
Definition is_continuation (a : ascii) : bool :=
  let n := nat_of_ascii a in
  (128 <=? n)%nat && (n <? 192)%nat.

(** [len(s)]: the number of code points. *)
Fixpoint utf8_length (s : string) : nat :=
  match s with
  | EmptyString => 0%nat
  | String a s' =>
      if is_continuation a then utf8_length s' else S (utf8_length s')
  end.

(** [s[:n]]: the first [n] code points. *)
Fixpoint utf8_take (n : nat) (s : string) : string :=
  match s with
  | EmptyString => EmptyString
  | String a s' =>
      if is_continuation a then String a (utf8_take n s')
      else
        match n with
        | O => EmptyString
        | S n' => String a (utf8_take n' s')
        end
  end.

(** The values of the answer's dict: [None], a [str], a list of [str]. *)
Inductive DiagVal : Type :=
  | DNone
  | DStr (s : string)
  | DList (l : list string).

(** What [hasattr(db, 'name')] and [db.name] meet: no such attribute, a
    name, or an attribute whose access raises. *)
Inductive NameAttr : Type :=
  | NameMissing
  | NameIs (name : string)
  | NameRaises (msg : string).

(** The surroundings of a call of [test_database]. *)
Record DiagEnv : Type := mkDiagEnv {
  db_name : NameAttr;
  list_collection_names : list string + string;
    (* the names the store lists, or the text of the exception it raises *)
  environ : gmap string string   (* os.environ *)
}.

(** [os.getenv(key)] in a condition: set, and not to the empty string. *)
Definition getenv_truthy (denv : DiagEnv) (key : string) : bool :=
  match environ denv !! key with
  | Some v => negb (String.eqb v EmptyString)
  | None => false
  end.

Definition test_database (denv : DiagEnv) (w : World) : gmap string DiagVal :=
  let response : gmap string DiagVal :=
    {[ "backend"%string := DStr "✅ Running";
       "database"%string := DStr "❌ Not Available";
       "database_url"%string := DNone;
       "database_name"%string := DNone;
       "connection_status"%string := DStr "Not Connected";
       "collections"%string := DList [] ]} in
  let response :=
    if negb (db_is_None w) then
      let response := <["database"%string := DStr "✅ Available"]> response in
      let response := <["database_url"%string := DStr "✅ Configured"]> response in
      match db_name denv with
      | NameRaises msg =>
          <["database"%string := DStr ("❌ Error: " +:+ utf8_take 50 msg)]> response
      | attr =>
          let response :=
            <["database_name"%string :=
                DStr (match attr with NameIs name => name | _ => "✅ Connected" end)]>
              response in
          let response := <["connection_status"%string := DStr "Connected"]> response in
          match list_collection_names denv with
          | inl collections =>
              let response :=
                <["collections"%string := DList (take 10 collections)]> response in
              <["database"%string := DStr "✅ Connected & Working"]> response
          | inr msg =>
              <["database"%string :=
                  DStr ("⚠️  Connected but Error: " +:+ utf8_take 50 msg)]> response
          end
      end
    else
      <["database"%string := DStr "⚠️  Available but not initialized"]> response in
  let response :=
    <["database_url"%string :=
        DStr (if getenv_truthy denv "DATABASE_URL" then "✅ Set" else "❌ Not Set")]>
      response in
  <["database_name"%string :=
      DStr (if getenv_truthy denv "DATABASE_NAME" then "✅ Set" else "❌ Not Set")]>
    response.

(** ** The fonts of the image *)

(** Lines 120-129 of [_build_coupon_image]: the four fonts are loaded with
    [ImageFont.truetype], and if any load raises all four are
    [ImageFont.load_default()]. *)
Definition load_fonts {Font : Type} (truetype : string -> Z -> option Font)
    (load_default : Font) : Font * Font * Font * Font :=
  match truetype "arialbd.ttf" 72, truetype "arialbd.ttf" 36,
        truetype "arialbd.ttf" 84, truetype "arial.ttf" 28 with
  | Some font_bold, Some font_semibold, Some font_code, Some font_small =>
      (font_bold, font_semibold, font_code, font_small)
  | _, _, _, _ => (load_default, load_default, load_default, load_default)
  end.

(** ** The coupon collection and the calls that returned *)

(** The records of the collection ["coupon"], oldest first. *)
Definition coupons (w : World) : list Coupon :=
  default [] (collections (store w) !! "coupon"%string).

Definition call_returned (ec : Env * Call) : option Z :=
  match ec.2 with
  | CallDone (Ok v) => Some v
  | _ => None
  end.

(** The values that the calls of a pool have returned so far. *)
Definition pool_returned (p : Pool) : list Z :=
  omap call_returned (pool_calls p).

(** A fetched document carries the positive integer the store gave. *)
Definition call_sound (ec : Env * Call) : Prop :=
  match ec.2 with
  | CallFetched doc => ∃ v, doc !! "value"%string = Some (PInt v) ∧ 1 ≤ v
  | _ => True
  end.

(** As [pool_inv], for calls that may meet faults or lack a handle. *)
Definition pool_inv_any (seq_name : string) (p : Pool) : Prop :=
  Forall call_sound (pool_calls p) ∧
  omap held (pool_calls p) ≡ₚ
    seqZ 1 (Z.of_nat (length (omap held (pool_calls p)))) ∧
  counter_value seq_name (pool_world p) =
    Z.of_nat (length (omap held (pool_calls p))) ∧
  (counter_doc seq_name (pool_world p) !! "value"%string = None ∨
   ∃ v, counter_doc seq_name (pool_world p) !! "value"%string = Some (PInt v)).

(** A numeral whose first digit is not 0. *)
Definition leading_nonzero (d : Decimal.uint) : bool :=
  match d with
  | Decimal.Nil | Decimal.D0 _ => false
  | _ => true
  end.

(** The records of the collection are those of sequence values that were
    given out, in increasing order. *)
Definition coupons_inv (w : World) : Prop :=
  counter_wf "coupon" w ∧
  ∃ ns, coupons w = (λ n, Coupon_new (coupon_code n) None None) <$> ns ∧
        StronglySorted Z.lt ns ∧
        Forall (λ n, 1 ≤ n ≤ counter_value "coupon" w) ns.

(** * Properties *)

(** ** The increment and the fallback *)

Lemma inc_value_Some (d doc : Doc) :
  inc_value d = Some doc →
  doc = <["value"%string := PInt (doc_value d + 1)]> d ∧
  (d !! "value"%string = None ∨ d !! "value"%string = Some (PInt (doc_value d))).
Proof.
  unfold inc_value, doc_value.
  destruct (d !! "value"%string) as [[| b | v]|] eqn:E; intros H; simplify_eq; auto.
Qed.

Lemma inc_value_is_Some (d : Doc) :
  d !! "value"%string = None ∨ (∃ v, d !! "value"%string = Some (PInt v)) →
  inc_value d = Some (<["value"%string := PInt (doc_value d + 1)]> d).
Proof.
  unfold inc_value, doc_value. intros [-> | [v ->]]; reflexivity.
Qed.

Lemma doc_value_insert (d : Doc) (v : Z) :
  doc_value (<["value"%string := PInt v]> d) = v.
Proof. unfold doc_value. by rewrite lookup_insert_eq. Qed.

Lemma sequence_of_doc_insert (d : Doc) (v : Z) :
  sequence_of_doc (<["value"%string := PInt v]> d) = Ok (if v =? 0 then 1 else v).
Proof.
  unfold sequence_of_doc, dict_get, py_or. rewrite lookup_insert_eq. simpl.
  destruct (v =? 0); reflexivity.
Qed.

Lemma sequence_of_doc_falsy (doc : Doc) :
  py_truthy (dict_get doc "value") = false → sequence_of_doc doc = Ok 1.
Proof. unfold sequence_of_doc, py_or. intros ->. reflexivity. Qed.

(** ** What a call of [_get_next_sequence] does *)

Lemma get_next_sequence_unconfigured env seq_name w :
  db_configured w = false →
  _get_next_sequence env seq_name w =
    (Raise (HTTPException 500 "Database not configured"), w).
Proof. intros H. unfold _get_next_sequence, db_is_None. rewrite H. reflexivity. Qed.

Lemma get_next_sequence_fault env seq_name w msg :
  db_configured w = true → counter_fault env = Some msg →
  _get_next_sequence env seq_name w = (Raise (OtherException msg), w).
Proof.
  intros H F. unfold _get_next_sequence, db_is_None, bind, find_one_and_update.
  rewrite H, F. reflexivity.
Qed.

Lemma get_next_sequence_ok env seq_name w :
  db_configured w = true → counter_fault env = None →
  counter_doc seq_name w !! "value"%string = None ∨
    (∃ v, counter_doc seq_name w !! "value"%string = Some (PInt v)) →
  _get_next_sequence env seq_name w =
    (Ok (next_value (counter_value seq_name w)),
     after_next seq_name
       (<["value"%string := PInt (counter_value seq_name w + 1)]> (counter_doc seq_name w))
       (next_value (counter_value seq_name w)) w).
Proof.
  intros H F Hv.
  unfold _get_next_sequence, db_is_None, bind, find_one_and_update, lift, after_next.
  rewrite H, F. simpl.
  fold (counter_doc seq_name w). rewrite (inc_value_is_Some _ Hv).
  fold (counter_value seq_name w). rewrite sequence_of_doc_insert.
  reflexivity.
Qed.

Lemma get_next_sequence_Ok_inv env seq_name w n w' :
  _get_next_sequence env seq_name w = (Ok n, w') →
  db_configured w = true ∧ counter_fault env = None ∧
  (counter_doc seq_name w !! "value"%string = None ∨
   counter_doc seq_name w !! "value"%string = Some (PInt (counter_value seq_name w))) ∧
  n = next_value (counter_value seq_name w) ∧
  w' = after_next seq_name
         (<["value"%string := PInt (counter_value seq_name w + 1)]> (counter_doc seq_name w))
         n w.
Proof.
  unfold _get_next_sequence, db_is_None, bind, find_one_and_update, lift, raise.
  destruct (db_configured w) eqn:H; simpl; [| intros; simplify_eq].
  destruct (counter_fault env) eqn:F; [intros; simplify_eq |].
  fold (counter_doc seq_name w).
  destruct (inc_value (counter_doc seq_name w)) as [doc|] eqn:E; [| intros; simplify_eq].
  apply inc_value_Some in E as [-> Hv].
  fold (counter_value seq_name w). rewrite sequence_of_doc_insert.
  unfold emit, ret, after_next, next_value. simpl. intros Heq. simplify_eq.
  rewrite H. auto.
Qed.

Lemma get_next_sequence_Raise_inv env seq_name w e w' :
  _get_next_sequence env seq_name w = (Raise e, w') → w' = w.
Proof.
  unfold _get_next_sequence, db_is_None, bind, find_one_and_update, lift, raise.
  destruct (db_configured w); simpl; [| intros; by simplify_eq].
  destruct (counter_fault env); [intros; by simplify_eq |].
  destruct (inc_value _) as [doc|] eqn:E; [| intros; by simplify_eq].
  apply inc_value_Some in E as [-> _]. rewrite sequence_of_doc_insert.
  unfold emit, ret. simpl. intros; simplify_eq.
Qed.

Lemma counter_doc_after_next seq_name doc n w :
  counter_doc seq_name (after_next seq_name doc n w) = doc.
Proof. unfold counter_doc, after_next. simpl. by rewrite lookup_insert_eq. Qed.

Lemma counter_value_after_next seq_name (d : Doc) v n w :
  counter_value seq_name (after_next seq_name (<["value"%string := PInt v]> d) n w) = v.
Proof. unfold counter_value. by rewrite counter_doc_after_next, doc_value_insert. Qed.

Lemma counter_doc_after_next_ne seq_name other doc n w :
  seq_name ≠ other →
  counter_doc other (after_next seq_name doc n w) = counter_doc other w.
Proof. intros Hne. unfold counter_doc, after_next. simpl. by rewrite lookup_insert_ne. Qed.

(** ** What a call of [generate_coupon] does *)

Lemma generate_coupon_unfold env w :
  generate_coupon env w =
    match _get_next_sequence env "coupon" w with
    | (Raise e, w1) => (handled e, w1)
    | (Ok n, w1) =>
        match insert_fault env with
        | Some e => (handled e, w1)
        | None =>
            (render_outcome env (coupon_code n),
             after_insert_render (Coupon_new (coupon_code n) None None) w1)
        end
    end.
Proof.
  unfold generate_coupon, try_except, bind at 1.
  destruct (_get_next_sequence env "coupon" w) as [[n | e] w1].
  - unfold bind at 1, create_document.
    destruct (insert_fault env) as [e |].
    + destruct e; reflexivity.
    + unfold _build_coupon_image, bind, emit, render_outcome, after_insert_render,
        coupon_code, coupon_headers, ret, raise.
      simpl. rewrite <- app_assoc. simpl.
      destruct (pil env) as [draw |]; [| reflexivity].
      destruct (draw _); reflexivity.
  - destruct e; reflexivity.
Qed.

Lemma response_code_render env c :
  is_streaming (render_outcome env c) = true →
  response_code (render_outcome env c) = Some c.
Proof.
  unfold render_outcome. destruct (pil env) as [draw |]; [| discriminate].
  destruct (draw c); [reflexivity | discriminate].
Qed.

Lemma is_streaming_handled e : is_streaming (handled e) = false.
Proof. destruct e; reflexivity. Qed.

(** ** Zero padding *)

Lemma length_zeros k : String.length (zeros k) = k.
Proof. induction k as [| k IH]; simpl; [reflexivity | by rewrite IH]. Qed.

Lemma length_append (s t : string) :
  String.length (s +:+ t) = (String.length s + String.length t)%nat.
Proof. induction s as [| a s IH]; simpl; [reflexivity | by rewrite IH]. Qed.

Lemma format_0d_nonneg width n :
  0 ≤ n → format_0d width n = zero_pad (Z.to_N n) width.
Proof.
  intros Hn. unfold format_0d, zero_pad.
  destruct (n <? 0) eqn:E; [apply Z.ltb_lt in E; lia |].
  replace (Z.abs_N n) with (Z.to_N n) by (destruct n; simpl; try reflexivity; lia).
  simpl. by rewrite Nat.sub_0_r.
Qed.

Lemma length_zero_pad n width :
  String.length (zero_pad n width) = Nat.max width (String.length (decimal n)).
Proof. unfold zero_pad. rewrite length_append, length_zeros. lia. Qed.

Lemma parse_decimal_zeros k s :
  parse_decimal (zeros k +:+ s) = parse_decimal s.
Proof.
  unfold parse_decimal. induction k as [| k IH]; [reflexivity |].
  simpl. destruct (NilEmpty.uint_of_string (zeros k +:+ s)) as [d |] eqn:E;
    destruct (NilEmpty.uint_of_string s) as [d' |] eqn:E'; simpl in *;
    simplify_eq; try reflexivity.
  rewrite <- IH. reflexivity.
Qed.

Lemma parse_decimal_decimal n : parse_decimal (decimal n) = Some n.
Proof.
  unfold parse_decimal, decimal. rewrite NilEmpty.usu. simpl.
  by rewrite DecimalN.Unsigned.of_to.
Qed.

Lemma parse_zero_pad n width : parse_decimal (zero_pad n width) = Some n.
Proof. unfold zero_pad. by rewrite parse_decimal_zeros, parse_decimal_decimal. Qed.

(** ** Claims about one call of the sequencer *)

(** C2. The first successful call of [_get_next_sequence] on a sequence
    name that has no counter document returns exactly 1 (not 0, and not an
    exception standing for an empty value); with a configured store and a
    reachable counter collection that call does succeed. *)
Theorem C2_first_call_returns_one env seq_name w :
  counters (store w) !! seq_name = None →
  (∀ n w', _get_next_sequence env seq_name w = (Ok n, w') → n = 1) ∧
  (db_configured w = true → counter_fault env = None →
   fst (_get_next_sequence env seq_name w) = Ok 1).
Proof.
  intros Hfresh.
  assert (Hdoc : counter_doc seq_name w = ∅) by (unfold counter_doc; by rewrite Hfresh).
  assert (Hval : counter_value seq_name w = 0)
    by (unfold counter_value; rewrite Hdoc; reflexivity).
  split.
  - intros n w' H. apply get_next_sequence_Ok_inv in H as (_ & _ & _ & -> & _).
    rewrite Hval. reflexivity.
  - intros Hc Hf. rewrite get_next_sequence_ok; auto.
    + simpl. rewrite Hval. reflexivity.
    + left. rewrite Hdoc. reflexivity.
Qed.

Lemma C2_witness :
  counters (store fresh_world) !! "coupon"%string = None ∧
  fst (_get_next_sequence ok_env "coupon" fresh_world) = Ok 1.
Proof.
  split; [reflexivity |].
  apply (C2_first_call_returns_one ok_env "coupon" fresh_world); reflexivity.
Defined.

(** C8. When the store is not configured ([db is None]),
    [_get_next_sequence] raises the configuration error (status 500,
    "Database not configured") and [generate_coupon] lets it through; the
    world is the same afterwards: the counter collection and the coupon
    collection are unchanged, nothing was asked of the store or of the
    renderer, and no sequence value is consumed. *)
Theorem C8_unconfigured_store_fails_first env seq_name w :
  db_configured w = false →
  _get_next_sequence env seq_name w =
    (Raise (HTTPException 500 "Database not configured"), w) ∧
  generate_coupon env w =
    (Raise (HTTPException 500 "Database not configured"), w).
Proof.
  intros H. split.
  - by apply get_next_sequence_unconfigured.
  - rewrite generate_coupon_unfold, get_next_sequence_unconfigured by done.
    reflexivity.
Qed.

Lemma C8_witness :
  db_configured unconfigured_world = false ∧
  generate_coupon ok_env unconfigured_world =
    (Raise (HTTPException 500 "Database not configured"), unconfigured_world).
Proof.
  split; [reflexivity |].
  apply (C8_unconfigured_store_fails_first ok_env "coupon" unconfigured_world).
  reflexivity.
Defined.

(** C10, as the code has it. When the stored ["value"] of the sequence is
    absent or an integer not below -1 (every counter of the data model is
    such), a successful call of [_get_next_sequence] returns an integer that
    is at least 1; and whenever the ["value"] of the document after the
    increment is falsy (0, or absent), the [or 1] fallback makes the
    function return 1. *)
Theorem C10_at_least_one_from_minus_one env seq_name w n w' :
  (counter_doc seq_name w !! "value"%string = None ∨
   ∃ v, counter_doc seq_name w !! "value"%string = Some (PInt v) ∧ -1 ≤ v) →
  _get_next_sequence env seq_name w = (Ok n, w') →
  1 ≤ n ∧
  (counter_value seq_name w' = 0 → n = 1) ∧
  (∀ doc : Doc,
     doc !! "value"%string = None ∨ doc !! "value"%string = Some (PInt 0) →
     sequence_of_doc doc = Ok 1).
Proof.
  intros Hv H.
  apply get_next_sequence_Ok_inv in H as (_ & _ & _ & -> & ->).
  rewrite counter_value_after_next.
  assert (-1 ≤ counter_value seq_name w) as Hge.
  { unfold counter_value, doc_value.
    destruct Hv as [-> | (v & -> & Hv)]; lia. }
  unfold next_value. repeat split.
  - destruct (Z.eqb_spec (counter_value seq_name w + 1) 0); lia.
  - intros ->. reflexivity.
  - intros doc [Hd | Hd]; apply sequence_of_doc_falsy;
      unfold dict_get; rewrite Hd; reflexivity.
Qed.

Lemma C10_witness :
  1 ≤ 1 ∧
  (counter_value "coupon"
     (snd (_get_next_sequence ok_env "coupon" (world_with_counter (-1)))) = 0 →
   1 = 1) ∧
  (∀ doc : Doc,
     doc !! "value"%string = None ∨ doc !! "value"%string = Some (PInt 0) →
     sequence_of_doc doc = Ok 1).
Proof.
  apply (C10_at_least_one_from_minus_one ok_env "coupon" (world_with_counter (-1)) 1
           (snd (_get_next_sequence ok_env "coupon" (world_with_counter (-1))))).
  - right. exists (-1). split; [reflexivity | lia].
  - reflexivity.
Defined.

(** C10, as stated, fails: from a stored value of -2 the call succeeds and
    returns -1, which the [or 1] fallback lets through because it is truthy. *)
Lemma C10_counterexample_negative_counter :
  fst (_get_next_sequence ok_env "coupon" (world_with_counter (-2))) = Ok (-1) ∧
  ¬ (∀ env seq_name w n w',
       _get_next_sequence env seq_name w = (Ok n, w') → 1 ≤ n).
Proof.
  split; [reflexivity |].
  intros H.
  destruct (_get_next_sequence ok_env "coupon" (world_with_counter (-2)))
    as [r w'] eqn:E.
  assert (r = Ok (-1)) as -> by (change r with (fst (r, w')); rewrite <- E; reflexivity).
  specialize (H _ _ _ _ _ E). lia.
Qed.

(** ** Claims about one issuance *)

Lemma generate_coupon_sequenced env w n w1 :
  _get_next_sequence env "coupon" w = (Ok n, w1) →
  generate_coupon env w =
    match insert_fault env with
    | Some e => (handled e, w1)
    | None =>
        (render_outcome env (coupon_code n),
         after_insert_render (Coupon_new (coupon_code n) None None) w1)
    end.
Proof. intros H. rewrite generate_coupon_unfold, H. reflexivity. Qed.

Lemma generate_coupon_streaming_inv env w r w' :
  generate_coupon env w = (r, w') → is_streaming r = true →
  ∃ n w1,
    _get_next_sequence env "coupon" w = (Ok n, w1) ∧
    insert_fault env = None ∧
    r = render_outcome env (coupon_code n) ∧
    w' = after_insert_render (Coupon_new (coupon_code n) None None) w1.
Proof.
  rewrite generate_coupon_unfold.
  destruct (_get_next_sequence env "coupon" w) as [[n | e] w1] eqn:E.
  - destruct (insert_fault env) as [e |] eqn:F; intros H Hs; simplify_eq.
    + by rewrite is_streaming_handled in Hs.
    + eauto 6.
  - intros H Hs. simplify_eq. by rewrite is_streaming_handled in Hs.
Qed.

Lemma counter_doc_after_insert_render seq_name c w :
  counter_doc seq_name (after_insert_render c w) = counter_doc seq_name w.
Proof. reflexivity. Qed.

(** C3. In an issuance where the sequencer returned [n], the code is the
    prefix ["WBAU10DIC-"] followed by [n] formatted with [06d]: it is the
    code of the record written, the code given to the renderer and the code
    in the [X-Coupon-Code] header of a streamed answer.  For [n >= 0] that
    format is [n] in decimal with zeros before it up to 6 characters: never
    shorter than the digits of [n], and it reads back as [n].  For 7 the
    code is ["WBAU10DIC-000007"], for 1000000 it is ["WBAU10DIC-1000000"]. *)
Theorem C3_code_is_prefix_and_padded_sequence env w n w1 :
  _get_next_sequence env "coupon" w = (Ok n, w1) →
  let c := (COUPON_PREFIX +:+ format_06d n)%string in
  (∃ evs, log (snd (generate_coupon env w)) = log w1 ++ evs ∧
          Forall (event_has_code c) evs) ∧
  (is_streaming (fst (generate_coupon env w)) = true →
   response_code (fst (generate_coupon env w)) = Some c) ∧
  (0 ≤ n →
   format_06d n = zero_pad (Z.to_N n) 6 ∧
   String.length (format_06d n) = Nat.max 6 (String.length (decimal (Z.to_N n))) ∧
   parse_decimal (format_06d n) = Some (Z.to_N n)) ∧
  (COUPON_PREFIX +:+ format_06d 7 = "WBAU10DIC-000007")%string ∧
  (COUPON_PREFIX +:+ format_06d 1000000 = "WBAU10DIC-1000000")%string.
Proof.
  intros H c. rewrite (generate_coupon_sequenced _ _ _ _ H).
  fold (coupon_code n) in c.
  repeat split.
  - destruct (insert_fault env) as [e |]; simpl.
    + exists []. by rewrite app_nil_r.
    + eexists. split; [reflexivity |].
      repeat constructor.
  - destruct (insert_fault env) as [e |]; simpl.
    + by rewrite is_streaming_handled.
    + apply response_code_render.
  - unfold format_06d. by apply format_0d_nonneg.
  - unfold format_06d. rewrite format_0d_nonneg by done. apply length_zero_pad.
  - unfold format_06d. rewrite format_0d_nonneg by done. apply parse_zero_pad.
Qed.

Lemma C3_witness :
  let w := world_with_counter 6 in
  _get_next_sequence ok_env "coupon" w =
    (Ok 7, snd (_get_next_sequence ok_env "coupon" w)) ∧
  response_code (fst (generate_coupon ok_env w)) = Some "WBAU10DIC-000007"%string.
Proof.
  split; [reflexivity |].
  refine (proj1 (proj2 (C3_code_is_prefix_and_padded_sequence ok_env
            (world_with_counter 6) 7 _ eq_refl)) eq_refl).
Defined.

(** C9. The record that a successful issuance adds to the coupon collection
    has the generated code (the one in the answer's [X-Coupon-Code] header)
    in [code], ["whatsapp"] in [channel] and [False] in [redeemed]; it is the
    one record added. *)
Theorem C9_record_has_defaults env w r w' :
  generate_coupon env w = (r, w') → is_streaming r = true →
  ∃ c,
    response_code r = Some c ∧
    Coupon_new c None None =
      {| code := c; channel := Some "whatsapp"%string; redeemed := false |} ∧
    collections (store w') !! "coupon"%string =
      Some (default [] (collections (store w) !! "coupon"%string) ++
            [{| code := c; channel := Some "whatsapp"%string; redeemed := false |}]) ∧
    EvInsert "coupon"
      {| code := c; channel := Some "whatsapp"%string; redeemed := false |} ∈ log w'.
Proof.
  intros H Hs.
  destruct (generate_coupon_streaming_inv _ _ _ _ H Hs) as (n & w1 & Hn & Hf & -> & ->).
  exists (coupon_code n). split; [by apply response_code_render |].
  split; [reflexivity |].
  apply get_next_sequence_Ok_inv in Hn as (_ & _ & _ & _ & ->).
  split.
  - simpl. by rewrite lookup_insert_eq.
  - simpl. rewrite !elem_of_app. right. left.
Qed.

Lemma C9_witness :
  collections (store (snd (generate_coupon ok_env fresh_world))) !! "coupon"%string =
    Some [{| code := "WBAU10DIC-000001"; channel := Some "whatsapp"%string;
             redeemed := false |}].
Proof.
  destruct (C9_record_has_defaults ok_env fresh_world
              (fst (generate_coupon ok_env fresh_world))
              (snd (generate_coupon ok_env fresh_world)) eq_refl eq_refl)
    as (c & Hc & _ & Hcol & _).
  vm_compute in Hc. injection Hc as <-. exact Hcol.
Defined.

Lemma generate_coupon_streaming_step env w r w' :
  generate_coupon env w = (r, w') → is_streaming r = true →
  counter_doc "coupon" w !! "value"%string = None ∨
    (∃ v, counter_doc "coupon" w !! "value"%string = Some (PInt v)) →
  response_code r = Some (coupon_code (next_value (counter_value "coupon" w))) ∧
  counter_doc "coupon" w' !! "value"%string =
    Some (PInt (counter_value "coupon" w + 1)).
Proof.
  intros H Hs _.
  destruct (generate_coupon_streaming_inv _ _ _ _ H Hs) as (n & w1 & Hn & Hf & -> & ->).
  apply get_next_sequence_Ok_inv in Hn as (_ & _ & _ & -> & ->).
  split; [by apply response_code_render |].
  rewrite counter_doc_after_insert_render, counter_doc_after_next.
  by rewrite lookup_insert_eq.
Qed.

Lemma counter_value_of_lookup seq_name w v :
  counter_doc seq_name w !! "value"%string = Some (PInt v) →
  counter_value seq_name w = v.
Proof. unfold counter_value, doc_value. by intros ->. Qed.

(** C4. Three successful issuances in a row, starting where the sequence
    ["coupon"] has no counter yet, answer with the codes
    ["WBAU10DIC-000001"], ["WBAU10DIC-000002"] and ["WBAU10DIC-000003"], in
    that order. *)
Theorem C4_three_issuances_in_order e1 e2 e3 w r1 w1 r2 w2 r3 w3 :
  counters (store w) !! "coupon"%string = None →
  generate_coupon e1 w = (r1, w1) → is_streaming r1 = true →
  generate_coupon e2 w1 = (r2, w2) → is_streaming r2 = true →
  generate_coupon e3 w2 = (r3, w3) → is_streaming r3 = true →
  response_code r1 = Some "WBAU10DIC-000001"%string ∧
  response_code r2 = Some "WBAU10DIC-000002"%string ∧
  response_code r3 = Some "WBAU10DIC-000003"%string.
Proof.
  intros Hfresh H1 S1 H2 S2 H3 S3.
  assert (Hdoc : counter_doc "coupon" w = ∅) by (unfold counter_doc; by rewrite Hfresh).
  assert (Hval : counter_value "coupon" w = 0)
    by (unfold counter_value; rewrite Hdoc; reflexivity).
  destruct (generate_coupon_streaming_step _ _ _ _ H1 S1) as [C1 V1].
  { left. by rewrite Hdoc. }
  destruct (generate_coupon_streaming_step _ _ _ _ H2 S2) as [C2 V2]; [eauto |].
  destruct (generate_coupon_streaming_step _ _ _ _ H3 S3) as [C3 _]; [eauto |].
  rewrite (counter_value_of_lookup _ _ _ V2) in C3.
  rewrite (counter_value_of_lookup _ _ _ V1) in C2, C3.
  rewrite Hval in C1, C2, C3.
  auto.
Qed.

Lemma C4_witness :
  let w1 := snd (generate_coupon ok_env fresh_world) in
  let w2 := snd (generate_coupon ok_env w1) in
  counters (store fresh_world) !! "coupon"%string = None ∧
  response_code (fst (generate_coupon ok_env fresh_world)) = Some "WBAU10DIC-000001"%string ∧
  response_code (fst (generate_coupon ok_env w1)) = Some "WBAU10DIC-000002"%string ∧
  response_code (fst (generate_coupon ok_env w2)) = Some "WBAU10DIC-000003"%string.
Proof.
  intros w1 w2. split; [reflexivity |].
  apply (C4_three_issuances_in_order ok_env ok_env ok_env fresh_world
           (fst (generate_coupon ok_env fresh_world)) w1
           (fst (generate_coupon ok_env w1)) w2
           (fst (generate_coupon ok_env w2)) (snd (generate_coupon ok_env w2)));
    reflexivity.
Defined.

Lemma new_events_app w w' evs :
  log w' = log w ++ evs → new_events w w' = evs.
Proof. intros H. unfold new_events. rewrite H. by rewrite drop_app_length. Qed.

Lemma log_after_next seq_name doc n w :
  log (after_next seq_name doc n w) = log w ++ [EvSequence seq_name n].
Proof. reflexivity. Qed.

(** C5. In every issuance the renderer is called only after the record with
    that code was written: the events of a request in which rendering was
    attempted are the sequencer's answer, the insertion, the call of the
    renderer, in that order.  Whatever the renderer then does, and so when
    Pillow is missing and the request fails with status 503, the record is
    in the collection afterwards, after the records that were there, and the
    counter keeps the incremented value; with a counter of the data model
    the next successful call of the sequencer returns the following value,
    not the consumed one. *)
Theorem C5_record_survives_render_failure env w r w' c :
  generate_coupon env w = (r, w') →
  EvRender c ∈ new_events w w' →
  ∃ n w1,
    _get_next_sequence env "coupon" w = (Ok n, w1) ∧ c = coupon_code n ∧
    new_events w w' =
      [EvSequence "coupon" n; EvInsert "coupon" (Coupon_new c None None); EvRender c] ∧
    collections (store w') !! "coupon"%string =
      Some (default [] (collections (store w) !! "coupon"%string) ++
            [Coupon_new c None None]) ∧
    counters (store w') = counters (store w1) ∧
    counter_doc "coupon" w' !! "value"%string =
      Some (PInt (counter_value "coupon" w + 1)) ∧
    (pil env = None →
     r = Raise (HTTPException 503 "Image generator unavailable. Please try again later.")) ∧
    (counter_wf "coupon" w →
     n = counter_value "coupon" w + 1 ∧
     ∀ env2 m w2, _get_next_sequence env2 "coupon" w' = (Ok m, w2) → m = n + 1).
Proof.
  rewrite generate_coupon_unfold.
  destruct (_get_next_sequence env "coupon" w) as [[n | e] w1] eqn:E.
  - pose proof E as E'.
    apply get_next_sequence_Ok_inv in E' as (_ & _ & Hv & Hn & Hw1).
    destruct (insert_fault env) as [e |] eqn:F; intros H Hin; simplify_eq.
    + rewrite (new_events_app _ _ [EvSequence "coupon" _]) in Hin by reflexivity.
      apply list_elem_of_singleton in Hin. discriminate.
    + set (n := next_value (counter_value "coupon" w)) in *.
      erewrite new_events_app in Hin |- *
        by (simpl; rewrite <- app_assoc; reflexivity).
      assert (c = coupon_code n) as ->.
      { simpl in Hin. rewrite !elem_of_cons in Hin.
        destruct Hin as [? | [? | [? | Hin]]]; try discriminate; [congruence |].
        by apply elem_of_nil in Hin. }
      exists n, (after_next "coupon"
                   (<["value"%string := PInt (counter_value "coupon" w + 1)]>
                      (counter_doc "coupon" w)) n w).
      repeat split; try reflexivity.
      * simpl. by rewrite lookup_insert_eq.
      * rewrite counter_doc_after_insert_render, counter_doc_after_next.
        by rewrite lookup_insert_eq.
      * unfold render_outcome. by intros ->.
      * subst n. unfold next_value.
        destruct H as [H0 | (v & H0 & Hpos)];
          rewrite (proj2 (Z.eqb_neq _ 0)); auto;
          unfold counter_value, doc_value; rewrite H0; lia.
      * intros env2 m w2 H2.
        apply get_next_sequence_Ok_inv in H2 as (_ & _ & _ & -> & _).
        unfold counter_value at 1.
        rewrite counter_doc_after_insert_render, counter_doc_after_next, doc_value_insert.
        subst n. unfold next_value.
        assert (0 ≤ counter_value "coupon" w) as Hge.
        { unfold counter_value, doc_value.
          destruct H as [-> | (v & -> & Hpos)]; lia. }
        rewrite !(proj2 (Z.eqb_neq _ 0)); lia.
  - intros H Hin. simplify_eq.
    apply get_next_sequence_Raise_inv in E as ->.
    unfold new_events in Hin. rewrite drop_all in Hin. by apply elem_of_nil in Hin.
Qed.

Lemma C5_witness :
  let r := fst (generate_coupon env_no_pillow fresh_world) in
  let w' := snd (generate_coupon env_no_pillow fresh_world) in
  r = Raise (HTTPException 503 "Image generator unavailable. Please try again later.") ∧
  collections (store w') !! "coupon"%string =
    Some [Coupon_new "WBAU10DIC-000001" None None] ∧
  fst (_get_next_sequence ok_env "coupon" w') = Ok 2.
Proof.
  intros r w'.
  destruct (C5_record_survives_render_failure env_no_pillow fresh_world r w'
              "WBAU10DIC-000001" eq_refl)
    as (n & w1 & Hn & Hc & Hev & Hcol & Hcnt & Hval & Hr & Hnext).
  { replace (new_events fresh_world w') with
      [EvSequence "coupon" 1;
       EvInsert "coupon" (Coupon_new "WBAU10DIC-000001" None None);
       EvRender "WBAU10DIC-000001"] by reflexivity.
    rewrite !elem_of_cons. auto. }
  split; [exact (Hr eq_refl) | split; [exact Hcol | reflexivity]].
Defined.

(** C6. When writing the record fails after the sequencer gave a value, the
    request fails with that exception (let through when it is an
    [HTTPException], answered as a JSON error with status 500 otherwise):
    the answer is not a streamed image, the renderer was not called, the
    collections are as they were, and the only event of the request is the
    sequencer's answer.  In general an answer that streams an image carries
    a code whose record is in the coupon collection. *)
Theorem C6_no_image_without_record env w n w1 e :
  _get_next_sequence env "coupon" w = (Ok n, w1) →
  insert_fault env = Some e →
  generate_coupon env w = (handled e, w1) ∧
  is_streaming (handled e) = false ∧
  new_events w w1 = [EvSequence "coupon" n] ∧
  (∀ c, EvRender c ∉ new_events w w1) ∧
  collections (store w1) = collections (store w) ∧
  (∀ env0 w0 r0 w0',
     generate_coupon env0 w0 = (r0, w0') → is_streaming r0 = true →
     ∃ c, response_code r0 = Some c ∧
          Coupon_new c None None ∈
            default [] (collections (store w0') !! "coupon"%string)).
Proof.
  intros H F.
  rewrite (generate_coupon_sequenced _ _ _ _ H), F.
  apply get_next_sequence_Ok_inv in H as (_ & _ & _ & Hn & ->).
  assert (Hev : new_events w (after_next "coupon"
                   (<["value"%string := PInt (counter_value "coupon" w + 1)]>
                      (counter_doc "coupon" w)) n w) = [EvSequence "coupon" n])
    by (by apply new_events_app).
  repeat split; auto using is_streaming_handled.
  - intros c. rewrite Hev. intros Hin%list_elem_of_singleton. discriminate.
  - intros env0 w0 r0 w0' H0 S0.
    destruct (generate_coupon_streaming_inv _ _ _ _ H0 S0) as (m & w2 & _ & _ & -> & ->).
    exists (coupon_code m). split; [by apply response_code_render |].
    simpl. rewrite lookup_insert_eq. simpl. apply elem_of_app. right. left.
Qed.

Lemma C6_witness :
  generate_coupon env_insert_fails fresh_world =
    (Ok (JSONResponse 500 [("error"%string, "write failed"%string)]),
     snd (_get_next_sequence env_insert_fails "coupon" fresh_world)) ∧
  collections (store (snd (generate_coupon env_insert_fails fresh_world))) = ∅.
Proof.
  destruct (C6_no_image_without_record env_insert_fails fresh_world 1
              (snd (_get_next_sequence env_insert_fails "coupon" fresh_world))
              (OtherException "write failed") eq_refl eq_refl)
    as (Hg & _ & _ & _ & Hcol & _).
  split; [exact Hg |]. rewrite Hg. exact Hcol.
Defined.

(** ** Claims about runs of operations *)

Lemma counter_wf_value seq_name w :
  counter_wf seq_name w → 0 ≤ counter_value seq_name w.
Proof.
  unfold counter_wf, counter_value, doc_value.
  intros [-> | (v & -> & Hv)]; lia.
Qed.

Lemma next_mono seq_name env other w :
  counter_value seq_name w ≤
    counter_value seq_name (snd (_get_next_sequence env other w)).
Proof.
  destruct (_get_next_sequence env other w) as [[n | e] w'] eqn:E; simpl.
  - apply get_next_sequence_Ok_inv in E as (_ & _ & Hv & _ & ->).
    destruct (decide (other = seq_name)) as [-> | Hne].
    + rewrite counter_value_after_next. lia.
    + unfold counter_value. rewrite counter_doc_after_next_ne by done. lia.
  - apply get_next_sequence_Raise_inv in E as ->. lia.
Qed.

Lemma issue_counters env w :
  counter_doc "coupon" (snd (generate_coupon env w)) =
    counter_doc "coupon" (snd (_get_next_sequence env "coupon" w)) ∧
  (∀ seq_name,
     counter_doc seq_name (snd (generate_coupon env w)) =
       counter_doc seq_name (snd (_get_next_sequence env "coupon" w))) ∧
  (∀ seq_name,
     returned seq_name (snd (generate_coupon env w)) =
       returned seq_name (snd (_get_next_sequence env "coupon" w))).
Proof.
  rewrite generate_coupon_unfold.
  destruct (_get_next_sequence env "coupon" w) as [[n | e] w1]; simpl; [| auto].
  destruct (insert_fault env); simpl; [auto |].
  repeat split; try reflexivity.
  intros seq_name. unfold returned. simpl. rewrite omap_app. simpl.
  by rewrite app_nil_r.
Qed.

Lemma run_op_mono seq_name step w :
  counter_value seq_name w ≤ counter_value seq_name (run_op step w).
Proof.
  destruct step as [env [other |]]; simpl.
  - apply next_mono.
  - unfold counter_value at 2. rewrite (proj1 (proj2 (issue_counters env w))).
    apply next_mono.
Qed.

Lemma run_ops_mono seq_name steps w :
  counter_value seq_name w ≤ counter_value seq_name (run_ops steps w).
Proof.
  revert w. induction steps as [| step steps IH]; intros w; simpl; [lia |].
  etrans; [apply (run_op_mono seq_name step) | apply IH].
Qed.

Lemma next_inv seq_name env other w :
  counter_inv seq_name w →
  counter_inv seq_name (snd (_get_next_sequence env other w)).
Proof.
  intros (Hwf & Hsorted & Hle).
  destruct (_get_next_sequence env other w) as [[n | e] w'] eqn:E; simpl.
  - apply get_next_sequence_Ok_inv in E as (_ & _ & Hv & -> & ->).
    destruct (decide (other = seq_name)) as [-> | Hne].
    + pose proof (counter_wf_value _ _ Hwf) as Hge.
      assert (next_value (counter_value seq_name w) = counter_value seq_name w + 1) as ->.
      { unfold next_value. rewrite (proj2 (Z.eqb_neq _ 0)); lia. }
      unfold counter_inv, counter_wf, returned.
      rewrite counter_value_after_next, counter_doc_after_next, lookup_insert_eq.
      simpl. rewrite omap_app. simpl. rewrite decide_True by done.
      fold (returned seq_name w).
      split; [right; eexists; split; [done | lia] |].
      split.
      * apply StronglySorted_app_2; [| done | repeat constructor].
        intros x1 x2 H1 ->%list_elem_of_singleton.
        rewrite Forall_forall in Hle. specialize (Hle _ H1). lia.
      * apply Forall_app. split; [| repeat constructor; lia].
        eapply Forall_impl; [exact Hle |]. simpl. intros; lia.
    + unfold counter_inv, counter_wf, returned, counter_value.
      rewrite counter_doc_after_next_ne by done.
      simpl. rewrite omap_app. simpl. rewrite decide_False by done.
      rewrite app_nil_r. done.
  - apply get_next_sequence_Raise_inv in E as ->. done.
Qed.

Lemma run_op_inv seq_name step w :
  counter_inv seq_name w → counter_inv seq_name (run_op step w).
Proof.
  intros H. destruct step as [env [other |]]; simpl.
  - by apply next_inv.
  - pose proof (next_inv seq_name env "coupon" w H) as H'.
    destruct (issue_counters env w) as (_ & Hd & Hr).
    unfold counter_inv, counter_wf, counter_value in *.
    by rewrite Hd, Hr.
Qed.

Lemma run_ops_inv seq_name steps w :
  counter_inv seq_name w → counter_inv seq_name (run_ops steps w).
Proof.
  revert w. induction steps as [| step steps IH]; intros w H; simpl; [done |].
  apply IH. by apply run_op_inv.
Qed.

Lemma run_ops_app steps1 steps2 w :
  run_ops (steps1 ++ steps2) w = run_ops steps2 (run_ops steps1 w).
Proof. unfold run_ops. apply foldl_app. Qed.

(** C7. Across any run of the program's operations (calls of the sequencer
    on any names, issuances, failing or not), from any world, the stored
    value of every sequence name never decreases; and from a counter of the
    data model (no value yet, or a non-negative integer) with no value
    returned yet, the values that the successful calls return for the name
    increase strictly: each is greater than every one returned before it,
    and so is the value of a further successful call. *)
Theorem C7_counter_monotone_returns_increase seq_name steps w :
  (∀ steps1 steps2, steps = steps1 ++ steps2 →
     counter_value seq_name w ≤ counter_value seq_name (run_ops steps1 w) ∧
     counter_value seq_name (run_ops steps1 w) ≤ counter_value seq_name (run_ops steps w)) ∧
  (counter_wf seq_name w →
   returned seq_name w = [] →
   StronglySorted Z.lt (returned seq_name (run_ops steps w)) ∧
   (∀ env n w',
      _get_next_sequence env seq_name (run_ops steps w) = (Ok n, w') →
      Forall (λ m, m < n) (returned seq_name (run_ops steps w)))).
Proof.
  split.
  - intros steps1 steps2 ->. split; [apply run_ops_mono |].
    rewrite run_ops_app. apply run_ops_mono.
  - intros Hwf Hnil.
    assert (Hinv : counter_inv seq_name (run_ops steps w)).
    { apply run_ops_inv. unfold counter_inv. rewrite Hnil.
      repeat split; [done | constructor | constructor]. }
    split; [apply Hinv |].
    intros env n w' H.
    apply get_next_sequence_Ok_inv in H as (_ & _ & _ & -> & _).
    destruct Hinv as (Hwf' & _ & Hle).
    pose proof (counter_wf_value _ _ Hwf') as Hge.
    eapply Forall_impl; [exact Hle |]. simpl. intros m Hm.
    unfold next_value. rewrite (proj2 (Z.eqb_neq _ 0)); lia.
Qed.

Lemma C7_witness :
  let steps := [(ok_env, OpIssue); (env_no_pillow, OpIssue);
                (ok_env, OpNext "coupon"%string); (env_insert_fails, OpIssue)] in
  returned "coupon" (run_ops steps fresh_world) = [1; 2; 3; 4] ∧
  StronglySorted Z.lt (returned "coupon" (run_ops steps fresh_world)).
Proof.
  intros steps. split; [reflexivity |].
  refine (proj1 (proj2 (C7_counter_monotone_returns_increase "coupon" steps
                          fresh_world) _ eq_refl)).
  left. reflexivity.
Defined.

(** ** Claims about concurrent calls *)

Lemma get_next_sequence_steps env seq_name w :
  _get_next_sequence env seq_name w =
    if db_is_None w then
      (Raise (HTTPException 500 "Database not configured"), w)
    else
      match find_one_and_update env seq_name w with
      | (Ok doc, w1) =>
          (let! n := lift (sequence_of_doc doc) in
           do! emit (EvSequence seq_name n) in
           ret n) w1
      | (Raise e, w1) => (Raise e, w1)
      end.
Proof. reflexivity. Qed.

(** A call that steps alone does what [_get_next_sequence] does. *)
Lemma step_call_alone env seq_name w :
  let '(c1, w1) := step_call env seq_name CallStart w in
  let '(c2, w2) := step_call env seq_name c1 w1 in
  (c2, w2) =
    (CallDone (fst (_get_next_sequence env seq_name w)),
     snd (_get_next_sequence env seq_name w)).
Proof.
  rewrite get_next_sequence_steps. unfold step_call at 1.
  destruct (db_is_None w); [reflexivity |].
  destruct (find_one_and_update env seq_name w) as [[doc | e] w1];
    [| reflexivity].
  unfold step_call.
  destruct (bind _ _ w1) as [r w2]. reflexivity.
Qed.

Lemma lookup_split {A} (l : list A) (i : nat) (x : A) :
  l !! i = Some x →
  ∃ l1 l2, l = l1 ++ x :: l2 ∧ ∀ y, <[i := y]> l = l1 ++ y :: l2.
Proof.
  intros H. exists (take i l), (drop (S i) l). split.
  - symmetry. by apply take_drop_middle.
  - intros y. apply insert_take_drop. by eapply lookup_lt_Some.
Qed.

Lemma find_one_and_update_ok env seq_name w :
  counter_fault env = None →
  counter_doc seq_name w !! "value"%string = None ∨
    (∃ v, counter_doc seq_name w !! "value"%string = Some (PInt v)) →
  find_one_and_update env seq_name w =
    (Ok (<["value"%string := PInt (counter_value seq_name w + 1)]> (counter_doc seq_name w)),
     {| db_configured := db_configured w;
        store :=
          {| counters :=
               <[seq_name := <["value"%string := PInt (counter_value seq_name w + 1)]>
                               (counter_doc seq_name w)]> (counters (store w));
             collections := collections (store w) |};
        log := log w |}).
Proof.
  intros F Hv. unfold find_one_and_update. rewrite F.
  fold (counter_doc seq_name w). by rewrite (inc_value_is_Some _ Hv).
Qed.

Lemma step_call_start env seq_name w :
  db_configured w = true → counter_fault env = None →
  counter_doc seq_name w !! "value"%string = None ∨
    (∃ v, counter_doc seq_name w !! "value"%string = Some (PInt v)) →
  ∃ w',
    step_call env seq_name CallStart w =
      (CallFetched (<["value"%string := PInt (counter_value seq_name w + 1)]>
                      (counter_doc seq_name w)), w') ∧
    db_configured w' = true ∧
    counter_doc seq_name w' =
      <["value"%string := PInt (counter_value seq_name w + 1)]> (counter_doc seq_name w).
Proof.
  intros Hc F Hv. eexists. unfold step_call, db_is_None.
  rewrite Hc, (find_one_and_update_ok _ _ _ F Hv). simpl.
  split; [reflexivity |]. split; [done |].
  unfold counter_doc at 1. simpl. by rewrite lookup_insert_eq.
Qed.

Lemma step_call_fetched env seq_name (doc : Doc) v w :
  doc !! "value"%string = Some (PInt v) → 1 ≤ v →
  step_call env seq_name (CallFetched doc) w =
    (CallDone (Ok v),
     {| db_configured := db_configured w; store := store w;
        log := log w ++ [EvSequence seq_name v] |}).
Proof.
  intros Hd Hv. unfold step_call, bind, lift, sequence_of_doc, dict_get, py_or.
  rewrite Hd. simpl. rewrite (proj2 (Z.eqb_neq v 0)) by lia. reflexivity.
Qed.

Lemma omap_held_None l1 ec l2 :
  held ec = None → omap held (l1 ++ ec :: l2) = omap held l1 ++ omap held l2.
Proof. intros H. rewrite omap_app. simpl. by rewrite H. Qed.

Lemma omap_held_Some l1 ec l2 v :
  held ec = Some v → omap held (l1 ++ ec :: l2) = omap held l1 ++ v :: omap held l2.
Proof. intros H. rewrite omap_app. simpl. by rewrite H. Qed.

Lemma Forall_middle {A} (P : A → Prop) l1 x y l2 :
  Forall P (l1 ++ x :: l2) → P y → Forall P (l1 ++ y :: l2).
Proof.
  rewrite !Forall_app, !Forall_cons. intros (H1 & _ & H2) Hy. done.
Qed.

Lemma pool_inv_step seq_name i p :
  pool_inv seq_name p → pool_inv seq_name (step_pool seq_name i p).
Proof.
  intros (Hc & Hok & Hperm & Hval & Hv). unfold step_pool.
  destruct (pool_calls p !! i) as [[env c] |] eqn:Hi; [| done].
  destruct (lookup_split _ _ _ Hi) as (l1 & l2 & Hl & Hins).
  assert (Hec : call_ok (env, c)).
  { rewrite Forall_forall in Hok. apply Hok. eapply list_elem_of_lookup_2, Hi. }
  destruct Hec as [F Hcall]. simpl in F, Hcall.
  destruct c as [| doc | [v | e]]; [| | | done].
  - destruct (step_call_start env seq_name (pool_world p) Hc F Hv)
      as (w' & -> & Hc' & Hdoc').
    rewrite Hl in Hok, Hperm, Hval.
    rewrite (omap_held_None l1 (env, CallStart) l2 eq_refl) in Hperm, Hval.
    unfold pool_inv. simpl. rewrite Hins.
    rewrite (omap_held_Some l1 _ l2 (counter_value seq_name (pool_world p) + 1))
      by (unfold held; simpl; by rewrite doc_value_insert).
    assert (Hval' : counter_value seq_name w' =
                    counter_value seq_name (pool_world p) + 1).
    { unfold counter_value at 1. by rewrite Hdoc', doc_value_insert. }
    rewrite Hval', Hdoc', lookup_insert_eq.
    set (hs := omap held l1 ++ omap held l2) in *.
    assert (Hlen : length (omap held l1 ++
                     (counter_value seq_name (pool_world p) + 1) :: omap held l2)
                   = S (length hs)).
    { unfold hs. rewrite !length_app. simpl. lia. }
    rewrite Hlen.
    split; [done |]. split; [| split; [| split]].
    + eapply Forall_middle; [exact Hok |].
      split; [done |]. simpl. eexists. rewrite lookup_insert_eq.
      split; [done |]. lia.
    + rewrite <- Permutation_middle, seqZ_S, <- Permutation_cons_append.
      fold hs. rewrite Hval, (Z.add_comm 1). by apply Permutation_skip.
    + lia.
    + right. eauto.
  - destruct Hcall as (v & Hd & Hpos).
    rewrite (step_call_fetched _ _ _ _ _ Hd Hpos).
    unfold pool_inv. simpl. rewrite Hins.
    assert (Hsame : omap held (l1 ++ (env, CallDone (Ok v)) :: l2) =
                    omap held (pool_calls p)).
    { rewrite Hl.
      rewrite (omap_held_Some l1 (env, CallDone (Ok v)) l2 v eq_refl).
      rewrite (omap_held_Some l1 (env, CallFetched doc) l2 v); [done |].
      unfold held, doc_value. simpl. by rewrite Hd. }
    rewrite Hsame. split; [done |]. split; [| done].
    rewrite Hl in Hok. eapply Forall_middle; [exact Hok |]. done.
  - simpl. rewrite list_insert_id by done. done.
Qed.

Lemma step_pool_lookup_ne seq_name i j p :
  i ≠ j → pool_calls (step_pool seq_name i p) !! j = pool_calls p !! j.
Proof.
  intros Hne. unfold step_pool.
  destruct (pool_calls p !! i) as [[env c] |]; [| done].
  destruct (step_call env seq_name c (pool_world p)) as [c' w']. simpl.
  by apply list_lookup_insert_ne.
Qed.

Lemma step_pool_lookup seq_name i p env c :
  pool_inv seq_name p →
  pool_calls p !! i = Some (env, c) →
  ∃ c', pool_calls (step_pool seq_name i p) !! i = Some (env, c') ∧
        phase c' = Nat.min 2 (S (phase c)).
Proof.
  intros (Hc & Hok & _ & _ & Hv) Hi. unfold step_pool. rewrite Hi.
  assert (Hlt : (i < length (pool_calls p))%nat) by (by eapply lookup_lt_Some).
  assert (Hec : call_ok (env, c)).
  { rewrite Forall_forall in Hok. apply Hok. eapply list_elem_of_lookup_2, Hi. }
  destruct Hec as [F Hcall]. simpl in F, Hcall.
  destruct c as [| doc | r].
  - destruct (step_call_start env seq_name (pool_world p) Hc F Hv) as (w' & -> & _).
    simpl. eexists. by rewrite list_lookup_insert_eq.
  - destruct Hcall as (v & Hd & Hpos).
    rewrite (step_call_fetched _ _ _ _ _ Hd Hpos).
    simpl. eexists. by rewrite list_lookup_insert_eq.
  - simpl. eexists. by rewrite list_lookup_insert_eq.
Qed.

Lemma run_schedule_inv seq_name sched p :
  pool_inv seq_name p → pool_inv seq_name (run_schedule seq_name sched p).
Proof.
  revert p. induction sched as [| i sched IH]; intros p H; simpl; [done |].
  apply IH. by apply pool_inv_step.
Qed.

Lemma run_schedule_phase seq_name sched p j env c :
  pool_inv seq_name p →
  pool_calls p !! j = Some (env, c) →
  ∃ c', pool_calls (run_schedule seq_name sched p) !! j = Some (env, c') ∧
        phase c' = Nat.min 2 (phase c + count_occ Nat.eq_dec sched j).
Proof.
  revert p c. induction sched as [| i sched IH]; intros p c Hinv Hj.
  - exists c. split; [done |]. simpl. destruct c; simpl; lia.
  - change (run_schedule seq_name (i :: sched) p)
      with (run_schedule seq_name sched (step_pool seq_name i p)).
    destruct (decide (i = j)) as [-> | Hne].
    + destruct (step_pool_lookup _ _ _ _ _ Hinv Hj) as (c1 & H1 & Hp1).
      destruct (IH _ c1 (pool_inv_step _ j _ Hinv) H1) as (c' & H' & Hp').
      exists c'. split; [done |].
      rewrite count_occ_cons_eq by done. lia.
    + destruct (IH (step_pool seq_name i p) c (pool_inv_step _ i _ Hinv))
        as (c' & H' & Hp').
      { by rewrite step_pool_lookup_ne. }
      exists c'. split; [done |].
      rewrite count_occ_cons_neq by done. lia.
Qed.

Lemma step_pool_length seq_name i p :
  length (pool_calls (step_pool seq_name i p)) = length (pool_calls p).
Proof.
  unfold step_pool. destruct (pool_calls p !! i) as [[env c] |]; [| done].
  destruct (step_call env seq_name c (pool_world p)) as [c' w']. simpl.
  apply length_insert.
Qed.

Lemma run_schedule_length seq_name sched p :
  length (pool_calls (run_schedule seq_name sched p)) = length (pool_calls p).
Proof.
  revert p. induction sched as [| i sched IH]; intros p; simpl; [done |].
  by rewrite IH, step_pool_length.
Qed.

Lemma omap_held_init envs :
  omap held ((λ env, (env, CallStart)) <$> envs) = [].
Proof. induction envs as [| env envs IH]; simpl; [done |]. exact IH. Qed.

Lemma init_pool_inv seq_name envs w :
  db_configured w = true →
  counters (store w) !! seq_name = None →
  Forall (λ env, counter_fault env = None) envs →
  pool_inv seq_name (init_pool envs w).
Proof.
  intros Hc Hfresh Hf. unfold pool_inv, init_pool. simpl.
  rewrite omap_held_init.
  assert (Hdoc : counter_doc seq_name w = ∅) by (unfold counter_doc; by rewrite Hfresh).
  split; [done |]. split; [| split; [| split]].
  - apply Forall_fmap. eapply Forall_impl; [exact Hf |]. intros env F. by split.
  - done.
  - unfold counter_value. by rewrite Hdoc.
  - left. by rewrite Hdoc.
Qed.

Lemma finished_calls_held (calls : list (Env * Call)) :
  Forall call_ok calls →
  Forall (λ ec, call_finished ec.2 = true) calls →
  (λ ec, ec.2) <$> calls = (λ v, CallDone (Ok v)) <$> omap held calls ∧
  length (omap held calls) = length calls.
Proof.
  induction calls as [| [env c] calls IH]; [done |].
  intros [[_ Hok] Hoks]%Forall_cons [Hfin Hfins]%Forall_cons.
  destruct (IH Hoks Hfins) as [IH1 IH2].
  destruct c as [| doc | [v | e]]; try discriminate; [| done].
  change (omap held ((env, CallDone (Ok v)) :: calls)) with (v :: omap held calls).
  split.
  - rewrite !fmap_cons. f_equal. exact IH1.
  - rewrite !length_cons. by rewrite IH2.
Qed.

(** C1. [N] calls of [_get_next_sequence] on one sequence name that has no
    counter yet, interleaved in any order around the store's atomic
    [find_one_and_update], with a configured and reachable store: once every
    call has taken its two steps all have returned, and the values returned
    are 1, ..., N in some order: none twice, none missing, none else. *)
Theorem C1_concurrent_calls_return_1_to_N seq_name envs sched w :
  db_configured w = true →
  counters (store w) !! seq_name = None →
  Forall (λ env, counter_fault env = None) envs →
  let final := run_schedule seq_name sched (init_pool envs w) in
  ((∀ i, (i < length envs)%nat → (2 ≤ count_occ Nat.eq_dec sched i)%nat) →
   all_finished final) ∧
  (all_finished final →
   ∃ vs,
     (λ ec, ec.2) <$> pool_calls final = (λ v, CallDone (Ok v)) <$> vs ∧
     vs ≡ₚ seqZ 1 (Z.of_nat (length envs)) ∧
     NoDup vs ∧
     ∀ v, v ∈ vs ↔ 1 ≤ v ≤ Z.of_nat (length envs)).
Proof.
  intros Hc Hfresh Hf final.
  pose proof (init_pool_inv seq_name envs w Hc Hfresh Hf) as Hinit.
  pose proof (run_schedule_inv seq_name sched _ Hinit) as Hinv. fold final in Hinv.
  assert (Hlen : length (pool_calls final) = length envs).
  { unfold final. rewrite run_schedule_length. simpl. apply length_fmap. }
  split.
  - intros Hfair. apply Forall_lookup. intros j [env c] Hj.
    assert (Hlt : (j < length envs)%nat) by (rewrite <- Hlen; by eapply lookup_lt_Some).
    destruct (lookup_lt_is_Some_2 envs j Hlt) as [env0 Henv0].
    destruct (run_schedule_phase seq_name sched (init_pool envs w) j env0 CallStart Hinit)
      as (c' & Hc' & Hp).
    { simpl. by rewrite list_lookup_fmap, Henv0. }
    fold final in Hc'. rewrite Hj in Hc'. injection Hc' as _ Hcc. subst c'.
    specialize (Hfair j Hlt).
    change (phase CallStart) with 0%nat in Hp. rewrite Nat.add_0_l in Hp.
    rewrite Nat.min_l in Hp by exact Hfair.
    destruct c; [discriminate | discriminate | reflexivity].
  - intros Hfin. destruct Hinv as (_ & Hok & Hperm & _ & _).
    destruct (finished_calls_held _ Hok Hfin) as [Hres Hl].
    rewrite Hl, Hlen in Hperm.
    exists (omap held (pool_calls final)). split; [done |]. split; [done |].
    split.
    + rewrite Hperm. apply NoDup_seqZ.
    + intros v. rewrite Hperm, elem_of_seqZ. lia.
Qed.

(** Three calls, interleaved: call 2 asks the store first, then 0, then 1;
    they return in the order 1, 2, 0. *)
Lemma C1_witness :
  let envs := [ok_env; ok_env; ok_env] in
  let sched := [2; 0; 1; 1; 2; 0]%nat in
  (λ ec, ec.2) <$> pool_calls (run_schedule "coupon" sched (init_pool envs fresh_world)) =
    [CallDone (Ok 2); CallDone (Ok 3); CallDone (Ok 1)] ∧
  ∃ vs,
    (λ ec, ec.2) <$> pool_calls (run_schedule "coupon" sched (init_pool envs fresh_world)) =
      (λ v, CallDone (Ok v)) <$> vs ∧
    vs ≡ₚ seqZ 1 3.
Proof.
  intros envs sched. split; [reflexivity |].
  destruct (C1_concurrent_calls_return_1_to_N "coupon" envs sched fresh_world)
    as [Hfin Hvals].
  - reflexivity.
  - reflexivity.
  - repeat constructor.
  - destruct Hvals as (vs & Hvs & Hperm & _).
    + apply Hfin. intros i Hi. simpl in Hi.
      destruct i as [| [| [| i]]]; simpl; lia.
    + exists vs. split; [exact Hvs | exact Hperm].
Defined.

(** * Further properties of the code *)

(** ** Slices of text *)

Lemma utf8_length_take n s :
  utf8_length (utf8_take n s) = Nat.min n (utf8_length s).
Proof.
  revert n. induction s as [| a s IH]; intros n; simpl.
  - by rewrite Nat.min_0_r.
  - destruct (is_continuation a) eqn:E; simpl; rewrite ?E.
    + apply IH.
    + destruct n as [| n]; simpl; [done |]. rewrite E. by rewrite IH.
Qed.

Lemma utf8_take_prefix n s : ∃ rest, s = utf8_take n s +:+ rest.
Proof.
  revert n. induction s as [| a s IH]; intros n; simpl.
  - by exists EmptyString.
  - destruct (is_continuation a).
    + destruct (IH n) as [rest Hrest]. exists rest.
      change (String a s = String a (utf8_take n s +:+ rest)). by f_equal.
    + destruct n as [| n].
      * by exists (String a s).
      * destruct (IH n) as [rest Hrest]. exists rest.
        change (String a s = String a (utf8_take n s +:+ rest)). by f_equal.
Qed.

Lemma utf8_take_all n s : (utf8_length s ≤ n)%nat → utf8_take n s = s.
Proof.
  revert n. induction s as [| a s IH]; intros n; simpl; [done |].
  destruct (is_continuation a).
  - intros H. by rewrite IH.
  - destruct n as [| n]; [lia |]. intros H. rewrite IH; [done | lia].
Qed.

(** ** The diagnostic endpoint *)

Lemma db_name_cases (attr : NameAttr) :
  (∃ msg, attr = NameRaises msg) ∨ (∀ msg, attr ≠ NameRaises msg).
Proof. destruct attr; [right | right | left]; eauto; intros; discriminate. Qed.

(** X1. In the answer of [test_database] the fields ["database_url"] and
    ["database_name"] say only whether the environment variables
    [DATABASE_URL] and [DATABASE_NAME] are set to a non-empty text: they are
    never [None], never the name of the database nor ["✅ Configured"], and
    are the same whether or not there is a database handle. *)
Theorem X1_url_and_name_report_environment denv w :
  test_database denv w !! "database_url"%string =
    Some (DStr (if getenv_truthy denv "DATABASE_URL" then "✅ Set" else "❌ Not Set")) ∧
  test_database denv w !! "database_name"%string =
    Some (DStr (if getenv_truthy denv "DATABASE_NAME" then "✅ Set" else "❌ Not Set")) ∧
  (environ denv !! "DATABASE_URL"%string = Some EmptyString →
   test_database denv w !! "database_url"%string = Some (DStr "❌ Not Set")).
Proof.
  unfold test_database. repeat split.
  - rewrite lookup_insert_ne by done. by rewrite lookup_insert_eq.
  - by rewrite lookup_insert_eq.
  - intros H. rewrite lookup_insert_ne by done. rewrite lookup_insert_eq.
    unfold getenv_truthy. by rewrite H.
Qed.

Lemma X1_witness :
  let denv := {| db_name := NameIs "shop"; list_collection_names := inl [];
                 environ := {[ "DATABASE_URL"%string := EmptyString ]} |} in
  test_database denv fresh_world !! "database_url"%string = Some (DStr "❌ Not Set").
Proof.
  intros denv.
  apply (proj2 (proj2 (X1_url_and_name_report_environment denv fresh_world))).
  reflexivity.
Defined.

(** X2. The answer of [test_database] always has the same six keys. *)
Theorem X2_answer_has_six_keys denv w :
  dom (test_database denv w) =
    ({[ "backend"; "database"; "database_url"; "database_name";
        "connection_status"; "collections" ]} : gset string)%string.
Proof.
  unfold test_database.
  destruct (negb (db_is_None w)); [destruct (db_name denv) |];
    try destruct (list_collection_names denv);
    rewrite !dom_insert_L, ?dom_singleton_L, ?dom_empty_L; set_solver.
Qed.

(** X3. [test_database] reports ["✅ Connected & Working"] exactly when
    there is a database handle, reading its name does not raise and the
    store lists its collections; the answer then carries the first ten
    names the store listed, in the store's order. *)
Theorem X3_working_iff_store_lists denv w :
  (test_database denv w !! "database"%string = Some (DStr "✅ Connected & Working") ↔
   db_configured w = true ∧ (∀ msg, db_name denv ≠ NameRaises msg) ∧
   ∃ names, list_collection_names denv = inl names) ∧
  (∀ names,
     db_configured w = true → (∀ msg, db_name denv ≠ NameRaises msg) →
     list_collection_names denv = inl names →
     test_database denv w !! "collections"%string = Some (DList (take 10 names)) ∧
     (length (take 10 names) ≤ 10)%nat ∧
     (take 10 names) `prefix_of` names).
Proof.
  unfold test_database, db_is_None. split.
  - rewrite !(lookup_insert_ne _ "database_name"%string "database"%string) by done.
    rewrite !(lookup_insert_ne _ "database_url"%string "database"%string) by done.
    destruct (db_configured w); simpl.
    + destruct (db_name denv) as [| name | msg];
        try destruct (list_collection_names denv) as [names | msg'];
        rewrite lookup_insert_eq; split;
        try (intros H; discriminate H);
        try (intros (_ & H & _); by destruct (H msg));
        try (intros (_ & _ & names' & H); discriminate H);
        try (intros _; repeat split; [intros; discriminate | eauto]);
        done.
    + rewrite lookup_insert_eq. split; [intros H; discriminate H | intros [H _]; discriminate H].
  - intros names Hc Hn Hl. rewrite Hc, Hl. simpl.
    split; [| split; [rewrite length_take; lia | apply prefix_take]].
    destruct (db_name denv) as [| name | msg]; [| | by destruct (Hn msg)];
      rewrite !lookup_insert_ne by done; by rewrite lookup_insert_eq.
Qed.

Lemma X3_witness :
  let denv := {| db_name := NameIs "shop";
                 list_collection_names :=
                   inl ["a"; "b"; "c"; "d"; "e"; "f"; "g"; "h"; "i"; "j"; "k"; "l"]%string;
                 environ := ∅ |} in
  test_database denv fresh_world !! "collections"%string =
    Some (DList ["a"; "b"; "c"; "d"; "e"; "f"; "g"; "h"; "i"; "j"]%string).
Proof.
  intros denv.
  apply (proj2 (X3_working_iff_store_lists denv fresh_world)
           ["a"; "b"; "c"; "d"; "e"; "f"; "g"; "h"; "i"; "j"; "k"; "l"]%string).
  - reflexivity.
  - intros msg. discriminate.
  - reflexivity.
Defined.

(** X4. When the store fails to list its collections, [test_database]
    still answers: ["database"] is the warning text followed by the first 50
    code points of the exception's message (a prefix of it, the whole
    message when it is no longer than that), the connection is reported as
    ["Connected"] and the list of collections is empty. *)
Theorem X4_listing_failure_is_reported denv w msg :
  db_configured w = true → (∀ m, db_name denv ≠ NameRaises m) →
  list_collection_names denv = inr msg →
  ∃ t,
    test_database denv w !! "database"%string =
      Some (DStr ("⚠️  Connected but Error: " +:+ t)) ∧
    utf8_length t = Nat.min 50 (utf8_length msg) ∧
    (∃ rest, msg = t +:+ rest) ∧
    ((utf8_length msg ≤ 50)%nat → t = msg) ∧
    test_database denv w !! "connection_status"%string = Some (DStr "Connected") ∧
    test_database denv w !! "collections"%string = Some (DList []).
Proof.
  intros Hc Hn Hl. exists (utf8_take 50 msg).
  split; [| split; [apply utf8_length_take |
            split; [apply utf8_take_prefix | split; [apply utf8_take_all |]]]];
    unfold test_database, db_is_None; rewrite Hc, Hl; simpl;
    destruct (db_name denv) as [| name | m]; try (by destruct (Hn m));
    try split; by simplify_map_eq.
Qed.

Lemma X4_witness :
  let denv := {| db_name := NameMissing;
                 list_collection_names := inr "timed out"%string;
                 environ := ∅ |} in
  test_database denv fresh_world !! "database"%string =
    Some (DStr "⚠️  Connected but Error: timed out").
Proof.
  intros denv.
  destruct (X4_listing_failure_is_reported denv fresh_world "timed out")
    as (t & Hdb & _ & _ & Hall & _).
  - reflexivity.
  - intros m. discriminate.
  - reflexivity.
  - rewrite Hdb, Hall; [reflexivity |]. vm_compute. lia.
Defined.

(** X5. [test_database] reports the connection as ["Connected"] exactly
    when there is a database handle and reading its name does not raise;
    without a handle ["database"] is ["⚠️  Available but not initialized"],
    and when reading the name raises it is ["❌ Error: "] followed by the
    first 50 code points of the message.  The initial ["❌ Not Available"]
    is never what the answer says. *)
Theorem X5_connection_status denv w :
  (test_database denv w !! "connection_status"%string = Some (DStr "Connected") ↔
   db_configured w = true ∧ ∀ msg, db_name denv ≠ NameRaises msg) ∧
  (db_configured w = false →
   test_database denv w !! "database"%string =
     Some (DStr "⚠️  Available but not initialized")) ∧
  (∀ msg, db_configured w = true → db_name denv = NameRaises msg →
   test_database denv w !! "database"%string =
     Some (DStr ("❌ Error: " +:+ utf8_take 50 msg))) ∧
  test_database denv w !! "database"%string ≠ Some (DStr "❌ Not Available").
Proof.
  unfold test_database, db_is_None.
  destruct (db_configured w); simpl.
  - destruct (db_name denv) as [| name | msg];
      try destruct (list_collection_names denv) as [names | msg'];
      simplify_map_eq; repeat split;
      try (intros; discriminate); try done;
      try (intros [_ H]; by destruct (H msg));
      try (intros ? _ ?; by simplify_eq).
  - simplify_map_eq. repeat split; try (intros; discriminate); try done.
    intros [H _]. discriminate.
Qed.

Lemma X5_witness :
  let denv := {| db_name := NameRaises "no access"%string;
                 list_collection_names := inl [];
                 environ := ∅ |} in
  test_database denv fresh_world !! "database"%string =
    Some (DStr "❌ Error: no access") ∧
  test_database denv unconfigured_world !! "database"%string =
    Some (DStr "⚠️  Available but not initialized").
Proof.
  intros denv. split.
  - apply (proj1 (proj2 (proj2 (X5_connection_status denv fresh_world)))
             "no access"%string); reflexivity.
  - apply (proj1 (proj2 (X5_connection_status denv unconfigured_world))).
    reflexivity.
Defined.

(** ** The fonts of the image *)

(** X6. The four fonts of the image are loaded together or not at all: if
    any of the four loads fails, every font is the default font, also those
    whose file could be loaded; if all four succeed they are the fonts
    loaded. *)
Theorem X6_fonts_all_or_nothing {Font : Type}
    (truetype : string → Z → option Font) (load_default : Font) :
  (truetype "arialbd.ttf"%string 72 = None ∨ truetype "arialbd.ttf"%string 36 = None ∨
   truetype "arialbd.ttf"%string 84 = None ∨ truetype "arial.ttf"%string 28 = None →
   load_fonts truetype load_default =
     (load_default, load_default, load_default, load_default)) ∧
  (∀ font_bold font_semibold font_code font_small,
     truetype "arialbd.ttf"%string 72 = Some font_bold →
     truetype "arialbd.ttf"%string 36 = Some font_semibold →
     truetype "arialbd.ttf"%string 84 = Some font_code →
     truetype "arial.ttf"%string 28 = Some font_small →
     load_fonts truetype load_default =
       (font_bold, font_semibold, font_code, font_small)).
Proof.
  unfold load_fonts. split.
  - intros H.
    destruct (truetype "arialbd.ttf"%string 72), (truetype "arialbd.ttf"%string 36),
      (truetype "arialbd.ttf"%string 84), (truetype "arial.ttf"%string 28);
      try reflexivity.
    destruct H as [H | [H | [H | H]]]; discriminate.
  - intros b s c m -> -> -> ->. reflexivity.
Qed.

Lemma X6_witness :
  load_fonts
    (λ file size, if String.eqb file "arialbd.ttf" then Some (file, size) else None)
    ("default"%string, 0) =
  (("default"%string, 0), ("default"%string, 0), ("default"%string, 0),
   ("default"%string, 0)).
Proof.
  apply (proj1 (X6_fonts_all_or_nothing
                  (λ file size, if String.eqb file "arialbd.ttf"
                                then Some (file, size) else None)
                  ("default"%string, 0))).
  right. right. right. reflexivity.
Defined.

(** ** The answers of an issuance *)

(** X7. What [generate_coupon] can answer: a streamed PNG whose headers are
    the attachment name and the code; a JSON error, always with status 500
    and one field ["error"]; or an [HTTPException], which is the
    configuration error 500, the missing-renderer error 503, or an
    [HTTPException] that [create_document] raised.  No other exception
    leaves the handler. *)
Theorem X7_answers_of_generate_coupon env w r w' :
  generate_coupon env w = (r, w') →
  match r with
  | Ok (StreamingResponse png media_type headers) =>
      media_type = "image/png"%string ∧
      ∃ n draw, headers = coupon_headers (coupon_code n) ∧
                pil env = Some draw ∧ draw (coupon_code n) = inl png
  | Ok (JSONResponse status_code content) =>
      status_code = 500 ∧ ∃ msg, content = [("error"%string, msg)]
  | Raise (HTTPException status_code detail) =>
      (status_code = 500 ∧ detail = "Database not configured"%string ∧
       db_configured w = false) ∨
      (status_code = 503 ∧
       detail = "Image generator unavailable. Please try again later."%string ∧
       pil env = None) ∨
      insert_fault env = Some (HTTPException status_code detail)
  | Raise (OtherException _) => False
  end.
Proof.
  rewrite generate_coupon_unfold.
  destruct (_get_next_sequence env "coupon" w) as [[n | e] w1] eqn:E.
  - destruct (insert_fault env) as [e |] eqn:F; intros H; simplify_eq.
    + destruct e; simpl; eauto.
    + unfold render_outcome. destruct (pil env) as [draw |] eqn:P; [| auto].
      destruct (draw (coupon_code n)) eqn:D; simpl; eauto 6.
  - intros H. simplify_eq.
    destruct (db_configured w) eqn:Hc.
    + unfold _get_next_sequence, db_is_None in E. rewrite Hc in E. simpl in E.
      unfold bind, find_one_and_update in E.
      destruct (counter_fault env); [simplify_eq; simpl; eauto |].
      destruct (inc_value _) as [doc |] eqn:I; [| simplify_eq; simpl; eauto].
      apply inc_value_Some in I as [-> _]. unfold lift in E.
      rewrite sequence_of_doc_insert in E. simpl in E. discriminate.
    + rewrite get_next_sequence_unconfigured in E by done. simplify_eq. simpl. auto.
Qed.

Lemma X7_witness :
  (500 = 500 ∧
   ∃ msg, [("error"%string, "write failed"%string)] = [("error"%string, msg)]) ∧
  fst (generate_coupon env_insert_fails fresh_world) =
    Ok (JSONResponse 500 [("error"%string, "write failed"%string)]).
Proof.
  split; [| reflexivity].
  exact (X7_answers_of_generate_coupon env_insert_fails fresh_world
           (Ok (JSONResponse 500 [("error"%string, "write failed"%string)]))
           (snd (generate_coupon env_insert_fails fresh_world)) eq_refl).
Defined.

(** X8. When the driver raises in [find_one_and_update], the issuance
    answers with the JSON error 500 that carries the driver's message;
    nothing is written and the renderer is not called: the world is as it
    was. *)
Theorem X8_store_fault_is_a_json_error env w msg :
  db_configured w = true → counter_fault env = Some msg →
  generate_coupon env w = (Ok (JSONResponse 500 [("error"%string, msg)]), w) ∧
  _get_next_sequence env "coupon" w = (Raise (OtherException msg), w).
Proof.
  intros Hc F.
  rewrite generate_coupon_unfold, (get_next_sequence_fault _ _ _ _ Hc F).
  done.
Qed.

Lemma X8_witness :
  let env := {| counter_fault := Some "connection refused"%string;
                insert_fault := None; pil := Some stub_png |} in
  generate_coupon env fresh_world =
    (Ok (JSONResponse 500 [("error"%string, "connection refused"%string)]), fresh_world).
Proof.
  intros env.
  exact (proj1 (X8_store_fault_is_a_json_error env fresh_world "connection refused"
                  eq_refl eq_refl)).
Defined.

(** X9. A sequence value is spent even when writing its record fails: with
    a counter of the data model, if [create_document] raises in a request
    whose sequencer returned [n], the next issuance that succeeds carries
    the code of [n + 1], and the code of [n] has no record. *)
Theorem X9_failed_write_burns_the_value env w n w1 e env2 r2 w2 :
  counter_wf "coupon" w →
  _get_next_sequence env "coupon" w = (Ok n, w1) →
  insert_fault env = Some e →
  generate_coupon env2 (snd (generate_coupon env w)) = (r2, w2) →
  is_streaming r2 = true →
  response_code r2 = Some (coupon_code (n + 1)) ∧
  coupons (snd (generate_coupon env w)) = coupons w ∧
  coupons w2 = coupons w ++ [Coupon_new (coupon_code (n + 1)) None None].
Proof.
  intros Hwf H F H2 S2.
  rewrite (generate_coupon_sequenced _ _ _ _ H), F in H2 |- *. simpl in H2 |- *.
  apply get_next_sequence_Ok_inv in H as (_ & _ & _ & -> & ->).
  pose proof (counter_wf_value _ _ Hwf) as Hge.
  destruct (generate_coupon_streaming_inv _ _ _ _ H2 S2) as (m & w3 & Hm & _ & -> & ->).
  apply get_next_sequence_Ok_inv in Hm as (_ & _ & _ & -> & ->).
  assert (Hn : next_value (counter_value "coupon" w) = counter_value "coupon" w + 1).
  { unfold next_value. rewrite (proj2 (Z.eqb_neq _ 0)); lia. }
  assert (Hn' : next_value (counter_value "coupon" w + 1) = counter_value "coupon" w + 1 + 1).
  { unfold next_value. rewrite (proj2 (Z.eqb_neq _ 0)); lia. }
  rewrite (response_code_render _ _ S2).
  rewrite counter_value_after_next, Hn, Hn'.
  split; [reflexivity |].
  split; [reflexivity |].
  unfold coupons. simpl. by rewrite lookup_insert_eq.
Qed.

Lemma X9_witness :
  let w1 := snd (generate_coupon env_insert_fails fresh_world) in
  response_code (fst (generate_coupon ok_env w1)) = Some "WBAU10DIC-000002"%string ∧
  coupons (snd (generate_coupon ok_env w1)) =
    [Coupon_new "WBAU10DIC-000002" None None].
Proof.
  intros w1.
  destruct (X9_failed_write_burns_the_value env_insert_fails fresh_world 1
              (snd (_get_next_sequence env_insert_fails "coupon" fresh_world))
              (OtherException "write failed") ok_env
              (fst (generate_coupon ok_env w1)) (snd (generate_coupon ok_env w1)))
    as (Hc & _ & Hw); try reflexivity.
  - left. reflexivity.
  - split; [exact Hc | exact Hw].
Defined.

(** ** Codes and sequence values *)

Lemma parse_decimal_minus s : parse_decimal (String "-" s) = None.
Proof.
  unfold parse_decimal. simpl.
  destruct (NilEmpty.uint_of_string s); reflexivity.
Qed.

Lemma format_0d_neg width n :
  n < 0 →
  format_0d width n =
    String "-" (zeros (width - 1 - String.length (decimal (Z.abs_N n))) +:+
                decimal (Z.abs_N n)).
Proof.
  intros Hn. unfold format_0d.
  destruct (n <? 0) eqn:E; [reflexivity | apply Z.ltb_ge in E; lia].
Qed.

Lemma format_0d_inj width n m : format_0d width n = format_0d width m → n = m.
Proof.
  intros H. destruct (Z.lt_ge_cases n 0) as [Hn | Hn], (Z.lt_ge_cases m 0) as [Hm | Hm].
  - rewrite !format_0d_neg in H by done. injection H as H.
    apply (f_equal parse_decimal) in H.
    rewrite !parse_decimal_zeros, !parse_decimal_decimal in H. injection H as H. lia.
  - rewrite format_0d_neg, format_0d_nonneg in H by done.
    apply (f_equal parse_decimal) in H.
    rewrite parse_decimal_minus, parse_zero_pad in H. discriminate.
  - rewrite format_0d_nonneg, format_0d_neg in H by done.
    apply (f_equal parse_decimal) in H.
    rewrite parse_decimal_minus, parse_zero_pad in H. discriminate.
  - rewrite !format_0d_nonneg in H by done.
    apply (f_equal parse_decimal) in H. rewrite !parse_zero_pad in H.
    injection H as H. lia.
Qed.

(** X10. Different sequence values give different codes, whatever their
    size or sign: the code determines the value. *)
Theorem X10_code_determines_sequence n m :
  coupon_code n = coupon_code m → n = m.
Proof.
  unfold coupon_code, COUPON_PREFIX. simpl. intros H. injection H as H.
  by apply (format_0d_inj 6).
Qed.

Lemma X10_witness : coupon_code 1000000 ≠ coupon_code 100000.
Proof. intros H. apply X10_code_determines_sequence in H. discriminate. Defined.

Lemma length_string_of_uint d :
  String.length (NilEmpty.string_of_uint d) = Decimal.nb_digits d.
Proof. induction d; simpl; congruence. Qed.

Lemma usize_nb_digits d :
  DecimalPos.Unsigned.usize d = N.of_nat (Decimal.nb_digits d).
Proof.
  induction d; simpl DecimalPos.Unsigned.usize; simpl Decimal.nb_digits;
    rewrite ?IHd; lia.
Qed.

Lemma of_lu_lt d :
  (DecimalPos.Unsigned.of_lu d < 10 ^ DecimalPos.Unsigned.usize d)%N.
Proof.
  induction d; simpl DecimalPos.Unsigned.of_lu; simpl DecimalPos.Unsigned.usize;
    rewrite ?N.pow_succ_r'; lia.
Qed.

Lemma of_uint_lt d :
  (N.of_uint d < 10 ^ N.of_nat (Decimal.nb_digits d))%N.
Proof.
  unfold N.of_uint. rewrite DecimalPos.Unsigned.of_uint_alt.
  rewrite <- DecimalFacts.nb_digits_rev, <- usize_nb_digits. apply of_lu_lt.
Qed.

Lemma of_uint_ge d :
  leading_nonzero d = true →
  (10 ^ N.of_nat (Nat.pred (Decimal.nb_digits d)) ≤ N.of_uint d)%N.
Proof.
  unfold N.of_uint. rewrite DecimalPos.Unsigned.of_uint_alt.
  destruct d; try discriminate; intros _;
    unfold Decimal.rev; simpl Decimal.revapp;
    rewrite DecimalPos.Unsigned.of_lu_revapp, usize_nb_digits;
    simpl DecimalPos.Unsigned.of_lu; simpl Decimal.nb_digits; simpl Nat.pred;
    assert (0 < 10 ^ N.of_nat (Decimal.nb_digits d))%N
      by (apply N.neq_0_lt_0, N.pow_nonzero; lia);
    nia.
Qed.

Lemma to_uint_normal n :
  N.to_uint n = Decimal.D0 Decimal.Nil ∨ leading_nonzero (N.to_uint n) = true.
Proof.
  pose proof (DecimalN.Unsigned.to_of (N.to_uint n)) as H.
  rewrite DecimalN.Unsigned.of_to in H.
  destruct (N.to_uint n) as [| d | d | d | d | d | d | d | d | d | d] eqn:E;
    try (right; reflexivity).
  - discriminate H.
  - left.
    assert (d = Decimal.Nil ∨ d ≠ Decimal.Nil) as [-> | Hd]
      by (destruct d; [by left | right; discriminate ..]); [reflexivity |].
    exfalso. apply (f_equal Decimal.nb_digits) in H.
    change (Decimal.unorm (Decimal.D0 d)) with (Decimal.unorm d) in H.
    pose proof (DecimalFacts.nb_digits_unorm d Hd). simpl in H. lia.
Qed.

Lemma length_decimal_le n (width : nat) :
  (1 ≤ width)%nat →
  (String.length (decimal n) ≤ width)%nat ↔ (n < 10 ^ N.of_nat width)%N.
Proof.
  intros Hw. unfold decimal. rewrite length_string_of_uint.
  pose proof (of_uint_lt (N.to_uint n)) as Hlt.
  rewrite DecimalN.Unsigned.of_to in Hlt.
  split.
  - intros Hle. eapply N.lt_le_trans; [exact Hlt |].
    apply N.pow_le_mono_r; lia.
  - intros Hn. destruct (to_uint_normal n) as [-> | Hnz]; [simpl; lia |].
    pose proof (of_uint_ge _ Hnz) as Hge.
    rewrite DecimalN.Unsigned.of_to in Hge.
    assert (10 ^ N.of_nat (Nat.pred (Decimal.nb_digits (N.to_uint n)))
            < 10 ^ N.of_nat width)%N as Hpow by lia.
    apply N.pow_lt_mono_r_iff in Hpow; lia.
Qed.

(** X11. The code is 16 characters long for the sequence values 0 to
    999999: the prefix and exactly six digits.  From 1000000 on it is
    longer, the prefix followed by all the digits of the value. *)
Theorem X11_code_length n :
  0 ≤ n →
  (n < 1000000 → String.length (coupon_code n) = 16%nat) ∧
  (1000000 ≤ n →
   coupon_code n = (COUPON_PREFIX +:+ decimal (Z.to_N n))%string ∧
   (16 < String.length (coupon_code n))%nat).
Proof.
  intros Hn.
  assert (Hlen : String.length (coupon_code n) =
                 (10 + Nat.max 6 (String.length (decimal (Z.to_N n))))%nat).
  { unfold coupon_code, format_06d.
    rewrite length_append, format_0d_nonneg, length_zero_pad by done. reflexivity. }
  pose proof (length_decimal_le (Z.to_N n) 6 ltac:(lia)) as Hiff.
  change (10 ^ N.of_nat 6)%N with 1000000%N in Hiff.
  split.
  - intros Hlt. rewrite Hlen.
    assert (String.length (decimal (Z.to_N n)) ≤ 6)%nat by (apply Hiff; lia).
    lia.
  - intros Hge.
    assert (¬ (String.length (decimal (Z.to_N n)) ≤ 6)%nat) as Hlong
      by (rewrite Hiff; lia).
    split; [| rewrite Hlen; lia].
    unfold coupon_code, format_06d. rewrite format_0d_nonneg by done.
    unfold zero_pad.
    replace (6 - String.length (decimal (Z.to_N n)))%nat with 0%nat by lia.
    reflexivity.
Qed.

Lemma X11_witness :
  String.length (coupon_code 999999) = 16%nat ∧
  coupon_code 1234567 = "WBAU10DIC-1234567"%string.
Proof.
  split.
  - apply (proj1 (X11_code_length 999999 ltac:(lia))). lia.
  - rewrite (proj1 (proj2 (X11_code_length 1234567 ltac:(lia)) ltac:(lia))).
    reflexivity.
Defined.

(** ** More about the sequencer *)


(** X13. A call of [_get_next_sequence] touches nothing but the ["value"]
    of its own counter document: the counters of the other names, the other
    fields of its document, the collections and the handle are as before,
    whether the call succeeds or not. *)
Theorem X13_sequencer_frame env seq_name w r w' :
  _get_next_sequence env seq_name w = (r, w') →
  (∀ other, other ≠ seq_name →
     counters (store w') !! other = counters (store w) !! other) ∧
  (∀ key, key ≠ "value"%string →
     counter_doc seq_name w' !! key = counter_doc seq_name w !! key) ∧
  collections (store w') = collections (store w) ∧
  db_configured w' = db_configured w.
Proof.
  destruct r as [n | e]; intros H.
  - apply get_next_sequence_Ok_inv in H as (_ & _ & _ & _ & ->).
    repeat split.
    + intros other Hne. simpl. by rewrite lookup_insert_ne.
    + intros key Hne. rewrite counter_doc_after_next. by rewrite lookup_insert_ne.
  - apply get_next_sequence_Raise_inv in H as ->. done.
Qed.

Lemma X13_witness :
  let w := world_with_counter 4 in
  counters (store (snd (_get_next_sequence ok_env "invoice" w))) !! "coupon"%string =
    counters (store w) !! "coupon"%string.
Proof.
  intros w.
  apply (proj1 (X13_sequencer_frame ok_env "invoice" w
                  (fst (_get_next_sequence ok_env "invoice" w))
                  (snd (_get_next_sequence ok_env "invoice" w)) eq_refl)).
  discriminate.
Defined.


Lemma seqZ_snoc v : 0 ≤ v → seqZ 1 (v + 1) = seqZ 1 v ++ [v + 1].
Proof.
  intros Hv. rewrite seqZ_app by lia. f_equal.
  rewrite seqZ_cons by lia. rewrite seqZ_nil by lia. f_equal. lia.
Qed.

Lemma next_wf seq_name env other w :
  counter_wf seq_name w →
  counter_wf seq_name (snd (_get_next_sequence env other w)).
Proof.
  intros Hwf. pose proof (counter_wf_value _ _ Hwf) as Hge.
  destruct (_get_next_sequence env other w) as [[n | e] w'] eqn:E; simpl.
  - apply get_next_sequence_Ok_inv in E as (_ & _ & _ & _ & ->).
    destruct (decide (other = seq_name)) as [-> | Hne].
    + unfold counter_wf. rewrite counter_doc_after_next, lookup_insert_eq.
      right. eexists. split; [done | lia].
    + unfold counter_wf. by rewrite counter_doc_after_next_ne.
  - by apply get_next_sequence_Raise_inv in E as ->.
Qed.

Lemma next_value_wf seq_name w :
  counter_wf seq_name w →
  next_value (counter_value seq_name w) = counter_value seq_name w + 1.
Proof.
  intros Hwf. pose proof (counter_wf_value _ _ Hwf).
  unfold next_value. rewrite (proj2 (Z.eqb_neq _ 0)); lia.
Qed.

Lemma next_gap_free seq_name env other w :
  counter_wf seq_name w →
  returned seq_name w = seqZ 1 (counter_value seq_name w) →
  returned seq_name (snd (_get_next_sequence env other w)) =
    seqZ 1 (counter_value seq_name (snd (_get_next_sequence env other w))).
Proof.
  intros Hwf Hret. pose proof (counter_wf_value _ _ Hwf) as Hge.
  destruct (_get_next_sequence env other w) as [[n | e] w'] eqn:E; simpl.
  - apply get_next_sequence_Ok_inv in E as (_ & _ & _ & -> & ->).
    destruct (decide (other = seq_name)) as [-> | Hne].
    + rewrite counter_value_after_next, (next_value_wf _ _ Hwf).
      unfold returned. simpl. rewrite omap_app. simpl.
      rewrite decide_True by done. fold (returned seq_name w).
      by rewrite Hret, seqZ_snoc.
    + unfold counter_value. rewrite counter_doc_after_next_ne by done.
      unfold returned. simpl. rewrite omap_app. simpl.
      rewrite decide_False by done. by rewrite app_nil_r.
  - by apply get_next_sequence_Raise_inv in E as ->.
Qed.

(** X14. The values returned for a sequence name have no gaps: over any
    run of sequencer calls and issuances, failing or not, from a counter of
    the data model whose earlier values were 1, ..., v, the values returned
    so far are 1, ..., v' in that order, where v' is the stored value. *)
Theorem X14_returned_values_have_no_gaps seq_name steps w :
  counter_wf seq_name w →
  returned seq_name w = seqZ 1 (counter_value seq_name w) →
  counter_wf seq_name (run_ops steps w) ∧
  returned seq_name (run_ops steps w) =
    seqZ 1 (counter_value seq_name (run_ops steps w)).
Proof.
  revert w. induction steps as [| [env op] steps IH]; intros w Hwf Hret; [done |].
  change (run_ops ((env, op) :: steps) w) with (run_ops steps (run_op (env, op) w)).
  destruct op as [other |]; simpl run_op.
  - apply IH; [by apply next_wf | by apply next_gap_free].
  - destruct (issue_counters env w) as (_ & Hd & Hr).
    apply IH.
    + unfold counter_wf. rewrite Hd. by apply next_wf.
    + unfold counter_value. rewrite Hr, Hd. by apply next_gap_free.
Qed.

Lemma X14_witness :
  let steps := [(ok_env, OpIssue); (env_insert_fails, OpIssue);
                (ok_env, OpNext "other"%string); (env_no_pillow, OpIssue)] in
  returned "coupon" (run_ops steps fresh_world) = [1; 2; 3].
Proof.
  intros steps.
  destruct (X14_returned_values_have_no_gaps "coupon" steps fresh_world) as [_ H].
  - left. reflexivity.
  - reflexivity.
  - rewrite H. reflexivity.
Defined.

(** ** The records of the collection *)

Lemma coupons_next env other w :
  coupons (snd (_get_next_sequence env other w)) = coupons w.
Proof.
  destruct (_get_next_sequence env other w) as [[n | e] w'] eqn:E; simpl.
  - by apply get_next_sequence_Ok_inv in E as (_ & _ & _ & _ & ->).
  - by apply get_next_sequence_Raise_inv in E as ->.
Qed.

Lemma coupons_inv_next env other w :
  coupons_inv w → coupons_inv (snd (_get_next_sequence env other w)).
Proof.
  intros (Hwf & ns & Hns & Hsorted & Hle).
  split; [by apply next_wf |].
  exists ns. rewrite coupons_next. split; [done |]. split; [done |].
  eapply Forall_impl; [exact Hle |]. simpl. intros n Hn.
  pose proof (next_mono "coupon" env other w). lia.
Qed.

Lemma coupons_inv_issue env w :
  coupons_inv w → coupons_inv (snd (generate_coupon env w)).
Proof.
  intros Hinv. pose proof (coupons_inv_next env "coupon" w Hinv) as Hnext.
  pose proof (coupons_next env "coupon" w) as Hsame.
  destruct Hinv as (Hwf & ns & Hns & Hsorted & Hle).
  rewrite generate_coupon_unfold.
  destruct (_get_next_sequence env "coupon" w) as [[n | e] w1] eqn:E; [| done].
  destruct (insert_fault env); [done |]. simpl in Hnext, Hsame |- *.
  destruct Hnext as (Hwf1 & _).
  apply get_next_sequence_Ok_inv in E as (_ & _ & _ & Hn & Hw1).
  rewrite (next_value_wf _ _ Hwf) in Hn.
  assert (Hcv : counter_value "coupon" w1 = n).
  { rewrite Hw1, counter_value_after_next. lia. }
  pose proof (counter_wf_value _ _ Hwf) as Hge.
  assert (Hcv' : ∀ c, counter_value "coupon" (after_insert_render c w1) = n).
  { intros c. unfold counter_value. rewrite counter_doc_after_insert_render. exact Hcv. }
  split; [exact Hwf1 |].
  exists (ns ++ [n]). split; [| split].
  - unfold coupons, after_insert_render. simpl. rewrite lookup_insert_eq. simpl.
    fold (coupons w1). by rewrite Hsame, Hns, fmap_app.
  - apply StronglySorted_app_2; [| done | repeat constructor].
    intros x1 x2 H1 ->%list_elem_of_singleton.
    rewrite Forall_forall in Hle. specialize (Hle _ H1). lia.
  - rewrite Hcv'. apply Forall_app. split.
    + eapply Forall_impl; [exact Hle |]. simpl. intros; lia.
    + repeat constructor; lia.
Qed.

Lemma coupons_inv_run steps w :
  coupons_inv w → coupons_inv (run_ops steps w).
Proof.
  revert w. induction steps as [| [env [other |]] steps IH]; intros w H; [done | |];
    apply IH; simpl; [by apply coupons_inv_next | by apply coupons_inv_issue].
Qed.

Lemma sorted_NoDup (ns : list Z) : StronglySorted Z.lt ns → NoDup ns.
Proof.
  induction 1 as [| n ns _ IH Hall]; constructor; [| done].
  intros Hin. rewrite Forall_forall in Hall. specialize (Hall _ Hin). lia.
Qed.

Lemma sorted_length_bound (ns : list Z) lo hi :
  StronglySorted Z.lt ns → Forall (λ n, lo < n ≤ hi) ns → lo ≤ hi →
  Z.of_nat (length ns) ≤ hi - lo.
Proof.
  intros Hsorted. revert lo.
  induction Hsorted as [| n ns _ IH Hall]; intros lo Hb Hlohi; simpl length; [lia |].
  apply Forall_cons in Hb as [Hn Hb].
  assert (Forall (λ m, n < m ≤ hi) ns) as Hb'.
  { rewrite Forall_forall in Hall, Hb |- *. intros m Hm.
    specialize (Hall _ Hm). specialize (Hb _ Hm). lia. }
  specialize (IH n Hb' ltac:(lia)). lia.
Qed.

#[local] Instance coupon_code_inj : Inj (=) (=) coupon_code.
Proof. intros n m H. unfold coupon_code, COUPON_PREFIX in H. simpl in H.
  injection H as H. by apply (format_0d_inj 6). Qed.

(** X15. Codes are not issued twice: over any run of sequencer calls and
    issuances, failing or not, that starts with an empty coupon collection
    and a counter of the data model, the records of the collection have
    pairwise different codes; each has the code of a sequence value from 1
    to the stored value, the channel ["whatsapp"] and is not redeemed; and
    there are never more records than the stored value. *)
Theorem X15_collection_has_distinct_codes steps w :
  counter_wf "coupon" w → coupons w = [] →
  NoDup (code <$> coupons (run_ops steps w)) ∧
  Forall (λ c, channel c = Some "whatsapp"%string ∧ redeemed c = false ∧
               ∃ n, 1 ≤ n ≤ counter_value "coupon" (run_ops steps w) ∧
                    code c = coupon_code n)
         (coupons (run_ops steps w)) ∧
  Z.of_nat (length (coupons (run_ops steps w))) ≤
    counter_value "coupon" (run_ops steps w).
Proof.
  intros Hwf Hnil.
  destruct (coupons_inv_run steps w) as (Hwf' & ns & Hns & Hsorted & Hle).
  { split; [done |]. exists []. rewrite Hnil. repeat split; constructor. }
  rewrite Hns. split; [| split].
  - rewrite <- list_fmap_compose.
    change (NoDup (coupon_code <$> ns)).
    apply (NoDup_fmap_2 coupon_code). by apply sorted_NoDup.
  - apply Forall_fmap. eapply Forall_impl; [exact Hle |]. simpl. eauto.
  - rewrite length_fmap.
    pose proof (sorted_length_bound ns 0
                  (counter_value "coupon" (run_ops steps w)) Hsorted) as Hb.
    pose proof (counter_wf_value _ _ Hwf').
    rewrite Z.sub_0_r in Hb. apply Hb; [| done].
    eapply Forall_impl; [exact Hle |]. simpl. intros; lia.
Qed.

Lemma X15_witness :
  let steps := [(ok_env, OpIssue); (env_insert_fails, OpIssue);
                (env_no_pillow, OpIssue); (ok_env, OpIssue)] in
  code <$> coupons (run_ops steps fresh_world) =
    ["WBAU10DIC-000001"; "WBAU10DIC-000003"; "WBAU10DIC-000004"]%string ∧
  NoDup (code <$> coupons (run_ops steps fresh_world)).
Proof.
  intros steps. split; [reflexivity |].
  apply (X15_collection_has_distinct_codes steps fresh_world).
  - left. reflexivity.
  - reflexivity.
Defined.

(** ** Concurrent calls that may fail *)

Lemma returned_sublist_held (calls : list (Env * Call)) :
  omap call_returned calls `sublist_of` omap held calls.
Proof.
  induction calls as [| [env c] calls IH]; [constructor |].
  destruct c as [| doc | [v | e]]; simpl; unfold call_returned, held; simpl;
    fold call_returned; fold held.
  - exact IH.
  - by apply sublist_cons.
  - by apply sublist_skip.
  - exact IH.
Qed.

Lemma omap_held_length (calls : list (Env * Call)) :
  (length (omap held calls) ≤ length calls)%nat.
Proof.
  induction calls as [| ec calls IH]; [done |].
  change (omap held (ec :: calls))
    with (match held ec with
          | Some v => v :: omap held calls
          | None => omap held calls
          end).
  destruct (held ec); simpl length; lia.
Qed.

Lemma pool_inv_any_step seq_name i p :
  pool_inv_any seq_name p → pool_inv_any seq_name (step_pool seq_name i p).
Proof.
  intros (Hok & Hperm & Hval & Hv). unfold step_pool.
  destruct (pool_calls p !! i) as [[env c] |] eqn:Hi; [| done].
  destruct (lookup_split _ _ _ Hi) as (l1 & l2 & Hl & Hins).
  assert (Hec : call_sound (env, c)).
  { rewrite Forall_forall in Hok. apply Hok. eapply list_elem_of_lookup_2, Hi. }
  unfold call_sound in Hec. simpl in Hec.
  assert (Hraise : ∀ e w',
    pool_inv_any seq_name (mkPool w' (pool_calls p)) →
    pool_inv_any seq_name
      (mkPool w' (<[i := (env, CallDone (Raise e))]> (pool_calls p))) ∨ c ≠ CallStart).
  { intros e w' (Hok' & Hperm' & Hval' & Hv'). destruct c; [left | right | right]; try done.
    unfold pool_inv_any. simpl in *. rewrite Hins.
    rewrite Hl in Hok', Hperm', Hval'.
    rewrite (omap_held_None l1 (env, CallStart) l2 eq_refl) in Hperm', Hval'.
    rewrite (omap_held_None l1 (env, CallDone (Raise e)) l2 eq_refl).
    split; [| done]. eapply Forall_middle; [exact Hok' | done]. }
  destruct c as [| doc | r].
  - unfold step_call.
    destruct (db_is_None (pool_world p)) eqn:Hnone.
    { destruct (Hraise (HTTPException 500 "Database not configured") (pool_world p))
        as [H | H]; [| exact H | done].
      by destruct p. }
    destruct (counter_fault env) as [msg |] eqn:F.
    { unfold find_one_and_update. rewrite F.
      destruct (Hraise (OtherException msg) (pool_world p)) as [H | H];
        [| exact H | done].
      by destruct p. }
    rewrite (find_one_and_update_ok _ _ _ F Hv).
    rewrite Hl in Hok, Hperm, Hval.
    rewrite (omap_held_None l1 (env, CallStart) l2 eq_refl) in Hperm, Hval.
    unfold pool_inv_any. simpl. rewrite Hins.
    rewrite (omap_held_Some l1 _ l2 (counter_value seq_name (pool_world p) + 1))
      by (unfold held; simpl; by rewrite doc_value_insert).
    set (w' := {| db_configured := _; store := _; log := _ |}).
    assert (Hdoc' : counter_doc seq_name w' =
              <["value"%string := PInt (counter_value seq_name (pool_world p) + 1)]>
                (counter_doc seq_name (pool_world p))).
    { unfold counter_doc at 1, w'. simpl. by rewrite lookup_insert_eq. }
    assert (Hval' : counter_value seq_name w' =
                    counter_value seq_name (pool_world p) + 1).
    { unfold counter_value at 1. by rewrite Hdoc', doc_value_insert. }
    rewrite Hval', Hdoc', lookup_insert_eq.
    set (hs := omap held l1 ++ omap held l2) in *.
    assert (Hlen : length (omap held l1 ++
                     (counter_value seq_name (pool_world p) + 1) :: omap held l2)
                   = S (length hs)).
    { unfold hs. rewrite !length_app. simpl. lia. }
    rewrite Hlen.
    split; [| split; [| split]].
    + eapply Forall_middle; [exact Hok |].
      unfold call_sound. simpl. eexists. rewrite lookup_insert_eq.
      split; [done |]. lia.
    + rewrite <- Permutation_middle, seqZ_S, <- Permutation_cons_append.
      fold hs. rewrite Hval, (Z.add_comm 1). by apply Permutation_skip.
    + lia.
    + right. eauto.
  - destruct Hec as (v & Hd & Hpos).
    rewrite (step_call_fetched _ _ _ _ _ Hd Hpos).
    unfold pool_inv_any. simpl. rewrite Hins.
    assert (Hsame : omap held (l1 ++ (env, CallDone (Ok v)) :: l2) =
                    omap held (pool_calls p)).
    { rewrite Hl.
      rewrite (omap_held_Some l1 (env, CallDone (Ok v)) l2 v eq_refl).
      rewrite (omap_held_Some l1 (env, CallFetched doc) l2 v); [done |].
      unfold held, doc_value. simpl. by rewrite Hd. }
    rewrite Hsame. split; [| done].
    rewrite Hl in Hok. eapply Forall_middle; [exact Hok |]. done.
  - simpl. rewrite list_insert_id by done. done.
Qed.

Lemma pool_inv_any_run seq_name sched p :
  pool_inv_any seq_name p → pool_inv_any seq_name (run_schedule seq_name sched p).
Proof.
  revert p. induction sched as [| i sched IH]; intros p H; simpl; [done |].
  apply IH. by apply pool_inv_any_step.
Qed.

(** X16. No value is handed out twice, at any moment and whatever fails:
    for any calls of [_get_next_sequence] on a sequence name that had no
    counter, some of which may meet a fault of the driver or a missing
    handle, and after any steps of any interleaving, the values returned so
    far are pairwise different, each lies between 1 and the stored value,
    and the stored value is at most the number of calls. *)
Theorem X16_no_duplicate_at_any_moment seq_name envs sched w :
  counters (store w) !! seq_name = None →
  let p := run_schedule seq_name sched (init_pool envs w) in
  NoDup (pool_returned p) ∧
  (∀ v, v ∈ pool_returned p → 1 ≤ v ≤ counter_value seq_name (pool_world p)) ∧
  counter_value seq_name (pool_world p) ≤ Z.of_nat (length envs).
Proof.
  intros Hfresh p.
  assert (Hdoc : counter_doc seq_name w = ∅) by (unfold counter_doc; by rewrite Hfresh).
  assert (Hinv : pool_inv_any seq_name p).
  { apply pool_inv_any_run. unfold pool_inv_any, init_pool. simpl.
    rewrite omap_held_init. split; [| split; [done | split]].
    - apply Forall_fmap, Forall_true. done.
    - unfold counter_value. by rewrite Hdoc.
    - left. by rewrite Hdoc. }
  destruct Hinv as (_ & Hperm & Hval & _).
  pose proof (returned_sublist_held (pool_calls p)) as Hsub.
  fold (pool_returned p) in Hsub.
  split; [| split].
  - eapply sublist_NoDup; [| exact Hsub]. rewrite Hperm. apply NoDup_seqZ.
  - intros v Hv. eapply elem_of_sublist in Hv; [| exact Hsub].
    rewrite Hperm, elem_of_seqZ in Hv. lia.
  - rewrite Hval. pose proof (omap_held_length (pool_calls p)) as Hlen.
    assert (length (pool_calls p) = length envs) as <-.
    { unfold p. rewrite run_schedule_length. simpl. apply length_fmap. }
    lia.
Qed.

Lemma X16_witness :
  let envs := [ok_env;
               {| counter_fault := Some "timeout"%string; insert_fault := None;
                  pil := None |};
               ok_env] in
  let sched := [2; 1; 0; 2; 1]%nat in
  pool_returned (run_schedule "coupon" sched (init_pool envs fresh_world)) = [1] ∧
  (λ ec, ec.2) <$> pool_calls (run_schedule "coupon" sched (init_pool envs fresh_world)) =
    [CallFetched {[ "value"%string := PInt 2 ]};
     CallDone (Raise (OtherException "timeout")); CallDone (Ok 1)] ∧
  NoDup (pool_returned (run_schedule "coupon" sched (init_pool envs fresh_world))).
Proof.
  intros envs sched. split; [reflexivity | split; [reflexivity |]].
  apply (X16_no_duplicate_at_any_moment "coupon" envs sched fresh_world).
  reflexivity.
Defined.
